(** * The channel-to-videos job pipeline: submission, channel resolution,
      video listing

    A shallow embedding of the three Motia steps
    - [steps/01-submit.step.ts] (two documents: module [Submit] is the first,
      module [SubmitAlt] the second),
    - [steps/02-resolveChannel.step.ts] (module [ResolveChannel]),
    - the video listing step (module [FetchVideos]),
    over an explicit job store, an operation trace and an oracle for the
    world outside the process (environment variables, clock, random source,
    HTTP responses).

    Conventions of the model:
    - strings are sequences of 8-bit code units (the Latin-1 part of a
      JavaScript string);
    - payloads, request bodies and job records are JavaScript objects: finite
      maps from property names to values;
    - a response body of the remote service is a JSON document with the
      members of the search resource of the YouTube Data API ([items]; for
      each entry [id], [snippet], [snippet.thumbnails],
      [snippet.thumbnails.default] and the string leaves below them), any of
      which may be missing or [null]; reading a property of a missing or
      [null] object raises a TypeError, as it does in the handlers; leaves
      that are there are strings;
    - the job store and the event bus of the framework are total:
      [state.get], [state.set], [emit] and the logger do not throw; the
      exceptions a handler can meet are the ones it raises itself, the
      TypeErrors of its own property reads, and the failures of [fetch];
    - a handler's run gives its outcome, the final store and the ordered
      trace of what it did. *)

From Stdlib Require Import Ascii ZArith DecimalString DecimalZ DecimalPos Sorted
  Permutation.
From stdpp Require Import gmap strings list fin_maps sorting.

Open Scope string_scope.
Open Scope list_scope.

(** ** Regular expressions, matched by derivatives *)

Module Regex.

Inductive re : Type :=
| Void
| Eps
| Class (p : ascii → bool)
| Cat (r s : re)
| Alt (r s : re)
| Star (r : re).

Definition Plus (r : re) : re := Cat r (Star r).
Definition Chr (c : ascii) : re := Class (Ascii.eqb c).

Fixpoint nullable (r : re) : bool :=
  match r with
  | Void => false
  | Eps => true
  | Class _ => false
  | Cat r s => nullable r && nullable s
  | Alt r s => nullable r || nullable s
  | Star _ => true
  end.

Fixpoint deriv (c : ascii) (r : re) : re :=
  match r with
  | Void => Void
  | Eps => Void
  | Class p => if p c then Eps else Void
  | Cat r s =>
      if nullable r then Alt (Cat (deriv c r) s) (deriv c s)
      else Cat (deriv c r) s
  | Alt r s => Alt (deriv c r) (deriv c s)
  | Star r => Cat (deriv c r) (Star r)
  end.

(** [test r s]: the whole of [s] matches [r] (a pattern anchored by
    [^] and [$], without flags). *)
Fixpoint test (r : re) (s : string) : bool :=
  match s with
  | EmptyString => nullable r
  | String c s' => test (deriv c r) s'
  end.

(** The strings a pattern denotes. *)
Inductive Matches : re → string → Prop :=
| MEps : Matches Eps ""
| MClass (p : ascii → bool) (c : ascii) :
    p c = true → Matches (Class p) (String c "")
| MCat (r s : re) (u v : string) :
    Matches r u → Matches s v → Matches (Cat r s) (u +:+ v)
| MAltL (r s : re) (u : string) : Matches r u → Matches (Alt r s) u
| MAltR (r s : re) (u : string) : Matches s u → Matches (Alt r s) u
| MStarNil (r : re) : Matches (Star r) ""
| MStarApp (r : re) (u v : string) :
    Matches r u → Matches (Star r) v → Matches (Star r) (u +:+ v).

End Regex.

(** ** JavaScript values and strings *)

Definition code (c : ascii) : N := N_of_ascii c.

(** [\s] on code units below 256: TAB, LF, VT, FF, CR, SPACE, NBSP. *)
Definition is_space (c : ascii) : bool :=
  let n := code c in
  ((9 <=? n) && (n <=? 13) || (n =? 32) || (n =? 160))%N.

(** The character class [[^\s@]]. *)
Definition not_space_at (c : ascii) : bool :=
  negb (is_space c) && negb (Ascii.eqb c "@").

Definition is_digit (c : ascii) : bool :=
  let n := code c in ((48 <=? n) && (n <=? 57))%N.

Definition is_lower (c : ascii) : bool :=
  let n := code c in ((97 <=? n) && (n <=? 122))%N.

Definition is_upper (c : ascii) : bool :=
  let n := code c in ((65 <=? n) && (n <=? 90))%N.

Definition is_alnum (c : ascii) : bool :=
  is_digit c || is_lower c || is_upper c.

(** The digits of a number printed in radix 36. *)
Definition is_base36 (c : ascii) : bool := is_digit c || is_lower c.

Fixpoint all_chars (p : ascii → bool) (s : string) : bool :=
  match s with
  | EmptyString => true
  | String c s' => p c && all_chars p s'
  end.

(** [`${n}`] for an integral Number. *)
Definition Z_to_string (z : Z) : string := NilZero.string_of_int (Z.to_int z).

(** [s.substring(from, to)] with [from <= to]. *)
Definition js_substring (from to : nat) (s : string) : string :=
  String.substring from (to - from) s.

(** [s.substring(1)]. *)
Definition js_substring1 (s : string) : string :=
  match s with
  | EmptyString => EmptyString
  | String _ s' => s'
  end.

(** [s.startsWith(c)] for a one-character [c]. *)
Definition js_startsWith (s : string) (c : ascii) : bool :=
  match s with
  | EmptyString => false
  | String d _ => Ascii.eqb d c
  end.

(** *** encodeURIComponent *)

Definition hex_digit (n : N) : ascii :=
  ascii_of_N (if (n <? 10)%N then 48 + n else 55 + n)%N.

Definition percent (byte : N) : string :=
  String "%" (String (hex_digit (byte / 16)) (String (hex_digit (byte mod 16)) "")).

(** Characters [encodeURIComponent] leaves alone:
    letters, digits and [- _ . ! ~ * ' ( )]. *)
Definition uri_unreserved (c : ascii) : bool :=
  is_alnum c
  || existsb (Ascii.eqb c) ["-"; "_"; "."; "!"; "~"; "*"; "'"; "("; ")"]%char.

(** Every other code unit is written as the percent-escaped bytes of its
    UTF-8 encoding: one byte below 128, two bytes from 128 to 255. *)
Definition encode_char (c : ascii) : string :=
  let n := code c in
  if uri_unreserved c then String c ""
  else if (n <? 128)%N then percent n
  else percent (192 + n / 64) +:+ percent (128 + n mod 64).

Fixpoint encodeURIComponent_string (s : string) : string :=
  match s with
  | EmptyString => EmptyString
  | String c s' => encode_char c +:+ encodeURIComponent_string s'
  end.

(** *** Values *)

(** A member of a JSON document: missing ([undefined] when read), [null],
    or there. A member that is there but is not an object (a string where an
    object is expected) reads like an object without members. *)
Inductive Member (A : Type) : Type :=
| Missing
| Null
| Has (a : A).
Arguments Missing {A}.
Arguments Null {A}.
Arguments Has {A} a.

#[global] Instance Member_eq_dec {A} `{EqDecision A} : EqDecision (Member A).
Proof. solve_decision. Defined.

(** A video as the listing step builds it, from the string leaves of a
    search resource (each a string, [null] or missing). *)
Record Video : Type := mkVideo {
  videoID : Member string;
  title : Member string;
  url : string;
  publishedAt : Member string;
  thumbnail : Member string;
}.

(** The values that occur in payloads and job records. *)
Inductive Val : Type :=
| VUndefined
| VNull
| VString (s : string)
| VVideos (vs : list Video).

#[global] Instance Video_eq_dec : EqDecision Video.
Proof. solve_decision. Defined.

#[global] Instance Val_eq_dec : EqDecision Val.
Proof. solve_decision. Defined.

(** A JavaScript object with string keys. *)
Abbreviation Obj := (gmap string Val).

(** ToBoolean. *)
Definition truthy (v : Val) : bool :=
  match v with
  | VUndefined | VNull => false
  | VString s => negb (String.eqb s "")
  | VVideos _ => true
  end.

(** ToString, as used by template literals, [+] and [encodeURIComponent];
    an array of plain objects prints as ["[object Object]"] joined by commas. *)
Definition to_string (v : Val) : string :=
  match v with
  | VUndefined => "undefined"
  | VNull => "null"
  | VString s => s
  | VVideos vs => String.concat "," (map (λ _, "[object Object]") vs)
  end.

(** ToString of a JSON leaf. *)
Definition leaf_string (l : Member string) : string :=
  match l with
  | Has s => s
  | Null => "null"
  | Missing => "undefined"
  end.

Definition leaf_val (l : Member string) : Val :=
  match l with
  | Has s => VString s
  | Null => VNull
  | Missing => VUndefined
  end.

Definition encodeURIComponent (v : Val) : string :=
  encodeURIComponent_string (to_string v).

(** Property read [o.k]: [undefined] when the object has no such key. *)
Definition prop (o : Obj) (k : string) : Val := default VUndefined (o !! k).

(** Object spread [{...o}] of a value that may be [undefined] or [null]. *)
Definition spread (o : option Obj) : Obj := default ∅ o.

(** ** The world outside the handlers *)

(** [items[i].id] *)
Record ResourceId : Type := mkResourceId {
  id_channelId : Member string;
  id_videoId : Member string;
}.

(** [items[i].snippet.thumbnails.default] *)
Record Thumbnail : Type := mkThumbnail {
  thumbnail_url : Member string;
}.

(** [items[i].snippet.thumbnails] *)
Record Thumbnails : Type := mkThumbnails {
  thumbnails_default : Member Thumbnail;
}.

(** [items[i].snippet] *)
Record Snippet : Type := mkSnippet {
  snippet_title : Member string;
  snippet_publishedAt : Member string;
  snippet_thumbnails : Member Thumbnails;
}.

(** One entry of a search response ([items[i]]). *)
Record SearchResult : Type := mkSearchResult {
  item_id : Member ResourceId;
  item_snippet : Member Snippet;
}.

(** The parsed body of a search response; [items = None] when the field is
    missing or [null]. A body that is not an object (a number, a string)
    reads as one without [items]. *)
Record SearchData : Type := mkSearchData {
  items : option (list (Member SearchResult));
}.

(** [await fetch(url)] followed by [await response.json()]: a parsed body
    ([Null] for the JSON document [null]), or an exception with its
    message. *)
Inductive FetchResult : Type :=
| FetchOk (body : Member SearchData)
| FetchThrows (message : string).

Record Env : Type := mkEnv {
  (** [process.env.YOUTUBE_API_KEY] *)
  env_YOUTUBE_API_KEY : Val;
  (** the remote service, by URL *)
  env_fetch : string → FetchResult;
  (** [Date.now()] *)
  env_Date_now : Z;
  (** [Math.random().toString(36)] *)
  env_Math_random_36 : string;
  (** [new Date().toISOString()] *)
  env_Date_toISOString : string;
}.

Record Event : Type := mkEvent {
  topic : string;
  data : Obj;
}.

(** What a handler does to the world, in order. Log entries keep the level
    and the message, not the metadata object. *)
Inductive Op : Type :=
| StateGet (key : string)
| StateSet (key : string) (value : Obj)
| Emit (e : Event)
| Fetch (url : string)
| Log (level message : string).

(** ** Handlers as state-and-exception computations with a trace *)

Inductive Outcome (A : Type) : Type :=
| Returns (a : A)
| Throws (message : string).
Arguments Returns {A} a.
Arguments Throws {A} message.

Record Run (A : Type) : Type := mkRun {
  outcome : Outcome A;
  final : gmap string Obj;
  ops : list Op;
}.
Arguments mkRun {A} outcome final ops.
Arguments outcome {A} r.
Arguments final {A} r.
Arguments ops {A} r.

Definition M (A : Type) : Type := gmap string Obj → Run A.

Definition ret {A} (a : A) : M A := λ st, mkRun (Returns a) st [].

Definition throw {A} (message : string) : M A := λ st, mkRun (Throws message) st [].

Definition bind {A B} (m : M A) (k : A → M B) : M B := λ st,
  match m st with
  | mkRun (Returns a) st1 l1 =>
      match k a st1 with
      | mkRun o st2 l2 => mkRun o st2 (l1 ++ l2)
      end
  | mkRun (Throws message) st1 l1 => mkRun (Throws message) st1 l1
  end.

(** [try { body } catch (error) { handler(error.message) }] *)
Definition try_catch {A} (body : M A) (handler : string → M A) : M A := λ st,
  match body st with
  | mkRun (Returns a) st1 l1 => mkRun (Returns a) st1 l1
  | mkRun (Throws message) st1 l1 =>
      match handler message st1 with
      | mkRun o st2 l2 => mkRun o st2 (l1 ++ l2)
      end
  end.

Notation "'let!' x ':=' m 'in' k" := (bind m (λ x, k))
  (at level 10, x name, m at level 100, k at level 200).
Notation "'do!' m 'in' k" := (bind m (λ _, k))
  (at level 10, m at level 100, k at level 200).

(** [await state.get(key)]: [None] when nothing is stored under [key]. *)
Definition state_get (key : string) : M (option Obj) := λ st,
  mkRun (Returns (st !! key)) st [StateGet key].

(** [await state.set(key, value)]: overwrites the whole record. *)
Definition state_set (key : string) (value : Obj) : M unit := λ st,
  mkRun (Returns tt) (<[key := value]> st) [StateSet key value].

Definition emit (e : Event) : M unit := λ st,
  mkRun (Returns tt) st [Emit e].

Definition logger (level message : string) : M unit := λ st,
  mkRun (Returns tt) st [Log level message].

Definition fetch_json (env : Env) (url : string) : M (Member SearchData) := λ st,
  match env_fetch env url with
  | FetchOk body => mkRun (Returns body) st [Fetch url]
  | FetchThrows message => mkRun (Throws message) st [Fetch url]
  end.

(** An expression that may throw and touches neither the store nor the
    bus. *)
Definition lift {A} (o : Outcome A) : M A := λ st, mkRun o st [].

Definition obind {A B} (o : Outcome A) (k : A → Outcome B) : Outcome B :=
  match o with
  | Returns a => k a
  | Throws message => Throws message
  end.

Notation "'let?' x ':=' o 'in' k" := (obind o (λ x, k))
  (at level 10, x name, o at level 100, k at level 200).

(** The object [m], about to be read at the property [name]: reading a
    property of [undefined] or [null] raises a TypeError (message of V8). *)
Definition read {A} (m : Member A) (name : string) : Outcome A :=
  match m with
  | Has a => Returns a
  | Missing =>
      Throws ("Cannot read properties of undefined (reading '" +:+ name +:+ "')")
  | Null =>
      Throws ("Cannot read properties of null (reading '" +:+ name +:+ "')")
  end.

(** [array.map(callback)]: the callbacks run in order, and the first
    exception ends the call. *)
Fixpoint map_items {A B} (callback : A → Outcome B) (array : list A)
    : Outcome (list B) :=
  match array with
  | [] => Returns []
  | x :: array' =>
      let? y := callback x in
      let? ys := map_items callback array' in
      Returns (y :: ys)
  end.

(** The events, the writes and the reads of a trace. *)
Definition emitted (l : list Op) : list Event :=
  omap (λ o, match o with Emit e => Some e | _ => None end) l.

Definition writes (l : list Op) : list (string * Obj) :=
  omap (λ o, match o with StateSet k v => Some (k, v) | _ => None end) l.

Definition reads (l : list Op) : list string :=
  omap (λ o, match o with StateGet k => Some k | _ => None end) l.

Definition is_log (o : Op) : bool :=
  match o with Log _ _ => true | _ => false end.

(** ** Step 1: POST /submit *)

Record Request : Type := mkRequest {
  (** [req.body]; [None] when the request has no body *)
  req_body : option Obj;
}.

Inductive ResponseBody : Type :=
| ErrorBody (error : string)
| SuccessBody (jobID : string) (message : string).

Record Response : Type := mkResponse {
  status : Z;
  body : ResponseBody;
}.

(** [const { channel, email } = req.body]: destructuring [undefined]
    raises a TypeError. *)
Definition destructure (o : option Obj) : M Obj :=
  match o with
  | Some b => ret b
  | None =>
      throw "Cannot destructure property 'channel' of 'req.body' as it is undefined."
  end.

(** [`job_${Date.now()}_${Math.random().toString(36).substring(2, 9)}`] *)
Definition new_jobID (env : Env) : string :=
  "job_" +:+ Z_to_string (env_Date_now env) +:+ "_"
  +:+ js_substring 2 9 (env_Math_random_36 env).

(** The first document of [steps/01-submit.step.ts]. *)
Module Submit.

(** [/^[^\s@]+@[^\s@]+\.[^\s@]+$/] *)
Definition emailRegex : Regex.re :=
  Regex.Cat (Regex.Plus (Regex.Class not_space_at))
    (Regex.Cat (Regex.Chr "@")
       (Regex.Cat (Regex.Plus (Regex.Class not_space_at))
          (Regex.Cat (Regex.Chr ".") (Regex.Plus (Regex.Class not_space_at))))).

Definition handler_try (env : Env) (req : Request) : M Response :=
  do! logger "info" "Received submission request" in
  let! body := destructure (req_body req) in
  let channel := prop body "channel" in
  let email := prop body "email" in
  if negb (truthy channel) || negb (truthy email) then
    ret (mkResponse 400 (ErrorBody "Channel and email are required"))
  else if negb (Regex.test emailRegex (to_string email)) then
    ret (mkResponse 400 (ErrorBody "Invalid email format"))
  else
    let jobID := new_jobID env in
    do! state_set ("job:" +:+ jobID)
          {[ "jobID" := VString jobID;
             "channel" := channel;
             "email" := email;
             "status" := VString "queued";
             "createdAt" := VString (env_Date_toISOString env) ]} in
    do! logger "info" "Job created" in
    do! emit (mkEvent "yt.submit"
                {[ "jobID" := VString jobID;
                   "channel" := channel;
                   "email" := email ]}) in
    ret (mkResponse 201
           (SuccessBody jobID
              "Job submitted successfully. You will get an email soon.")).

Definition handler_catch (message : string) : M Response :=
  do! logger "error" "Error in Submission handler:" in
  ret (mkResponse 500 (ErrorBody "Internal Server Error")).

Definition handler (env : Env) (req : Request) : M Response :=
  try_catch (handler_try env req) handler_catch.

End Submit.

(** The second document of [steps/01-submit.step.ts]: the same handler,
    with the store key [`job: ${jobID}`]. *)
Module SubmitAlt.

Definition eamilRegex : Regex.re :=
  Regex.Cat (Regex.Plus (Regex.Class not_space_at))
    (Regex.Cat (Regex.Chr "@")
       (Regex.Cat (Regex.Plus (Regex.Class not_space_at))
          (Regex.Cat (Regex.Chr ".") (Regex.Plus (Regex.Class not_space_at))))).

Definition handler_try (env : Env) (req : Request) : M Response :=
  do! logger "info" "Received submission request" in
  let! body := destructure (req_body req) in
  let channel := prop body "channel" in
  let email := prop body "email" in
  if negb (truthy channel) || negb (truthy email) then
    ret (mkResponse 400 (ErrorBody "Channel and email are required"))
  else if negb (Regex.test eamilRegex (to_string email)) then
    ret (mkResponse 400 (ErrorBody "Invalid email format"))
  else
    let jobID := new_jobID env in
    do! state_set ("job: " +:+ jobID)
          {[ "jobID" := VString jobID;
             "channel" := channel;
             "email" := email;
             "status" := VString "queued";
             "createdAt" := VString (env_Date_toISOString env) ]} in
    do! logger "info" "Job created" in
    do! emit (mkEvent "yt.submit"
                {[ "jobID" := VString jobID;
                   "channel" := channel;
                   "email" := email ]}) in
    ret (mkResponse 201
           (SuccessBody jobID
              "Job submitted successfully. You will get an email soon.")).

Definition handler_catch (message : string) : M Response :=
  do! logger "error" "Error in Submission handler:" in
  ret (mkResponse 500 (ErrorBody "Internal Server Error")).

Definition handler (env : Env) (req : Request) : M Response :=
  try_catch (handler_try env req) handler_catch.

End SubmitAlt.

(** ** Step 2: channel resolution ([steps/02-resolveChannel.step.ts]) *)

Module ResolveChannel.

Definition searchURL (q : Val) (YOUTUBE_API_KEY : Val) : string :=
  "https://www.googleapis.com/youtube/v3/search?part=snippet&type=channel&q="
  +:+ encodeURIComponent q +:+ "&key=" +:+ to_string YOUTUBE_API_KEY.

(** [channel.startsWith('@')]: a TypeError unless [channel] is a string. *)
Definition startsWith_at (channel : Val) : M bool :=
  match channel with
  | VString s => ret (js_startsWith s "@")
  | VUndefined =>
      throw "Cannot read properties of undefined (reading 'startsWith')"
  | VNull => throw "Cannot read properties of null (reading 'startsWith')"
  | VVideos _ => throw "channel.startsWith is not a function"
  end.

(** [channel.substring(1)], reached only when [channel] is a string. *)
Definition handle_of (channel : Val) : Val :=
  VString (js_substring1 (to_string channel)).

(** Lines 53-54: [searchData.items[0].id.channelId] and
    [searchData.items[0].snippet.title]. *)
Definition first_hit (first : Member SearchResult) : Outcome (Val * Val) :=
  let? item := read first "id" in
  let? id := read (item_id item) "channelId" in
  let channelID := leaf_val (id_channelId id) in
  let? snippet := read (item_snippet item) "title" in
  let channelName := leaf_val (snippet_title snippet) in
  Returns (channelID, channelName).

(** Lines 43-63: the handle lookup, giving [channelID] and [channelName]. *)
Definition resolve (env : Env) (channel YOUTUBE_API_KEY : Val) : M (Val * Val) :=
  let! is_handle := startsWith_at channel in
  if is_handle then
    let handle := handle_of channel in
    let! body := fetch_json env (searchURL handle YOUTUBE_API_KEY) in
    let! searchData := lift (read body "items") in
    match items searchData with
    | Some (first :: _) => lift (first_hit first)
    | _ =>
        let! body := fetch_json env (searchURL channel YOUTUBE_API_KEY) in
        ret (VNull, VString "")
    end
  else ret (VNull, VString "").

Definition handler_try (env : Env) (data : Obj) (jobID email : Val) : M unit :=
  let channel := prop data "channel" in
  do! logger "info" "Resolving yt channel" in
  let YOUTUBE_API_KEY := env_YOUTUBE_API_KEY env in
  do! (if negb (truthy YOUTUBE_API_KEY)
       then throw "YOUTUBE_API_KEY is not set in environment variables"
       else ret tt) in
  let! jobData := state_get ("job: " +:+ to_string jobID) in
  do! state_set ("job: " +:+ to_string jobID)
        (<["status" := VString "resolving channel"]> (spread jobData)) in
  let! resolved := resolve env channel YOUTUBE_API_KEY in
  let channelID := resolved.1 in
  let channelName := resolved.2 in
  if negb (truthy channelID) then
    do! logger "error" "channel not found" in
    do! state_set ("job: " +:+ to_string jobID)
          (<["error" := VString "Channel not found"]>
             (<["status" := VString "failed"]> (spread jobData))) in
    do! emit (mkEvent "yt.channel.error"
                {[ "jobID" := jobID; "email" := email ]}) in
    ret tt
  else
    do! emit (mkEvent "yt.channel.resolved"
                {[ "jobID" := jobID;
                   "channelID" := channelID;
                   "channelName" := channelName;
                   "email" := email ]}) in
    ret tt.

Definition handler_catch (jobID email : Val) (message : string) : M unit :=
  do! logger "error" "Error resolving channel" in
  if negb (truthy jobID) || negb (truthy email) then
    do! logger "error" "JobID or Email is required" in
    ret tt
  else
    let! jobData := state_get ("job: " +:+ to_string jobID) in
    do! state_set ("job: " +:+ to_string jobID)
          (<["error" := VString message]>
             (<["status" := VString "failed"]> (spread jobData))) in
    do! emit (mkEvent "yt.channel.error"
                {[ "jobID" := jobID;
                   "email" := email;
                   "error" := VString ("Failed to resolve channel: " +:+ message) ]}) in
    ret tt.

(** [eventData] is [None] for a missing ([undefined] or [null]) payload;
    [jobID] and [email] are assigned before anything can throw. *)
Definition handler (env : Env) (eventData : option Obj) : M unit :=
  let data := default ∅ eventData in
  let jobID := prop data "jobID" in
  let email := prop data "email" in
  try_catch (handler_try env data jobID email) (handler_catch jobID email).

End ResolveChannel.

(** ** Step 3: video listing *)

Module FetchVideos.

Definition searchURL (channelID : Val) (YOUTUBE_API_KEY : Val) : string :=
  "https://www.googleapis.com/youtube/v3/search?part=snippet&channelId="
  +:+ encodeURIComponent channelID
  +:+ "&maxResults=5&order=date&type=video&key=" +:+ to_string YOUTUBE_API_KEY.

(** The callback of [ytData.items.map] (lines 97-103): it reads
    [item.id.videoId], [item.snippet.title], [item.snippet.publishedAt] and
    [item.snippet.thumbnails.default.url], in that order. *)
Definition to_video (item : Member SearchResult) : Outcome Video :=
  let? entry := read item "id" in
  let? id := read (item_id entry) "videoId" in
  let? snippet := read (item_snippet entry) "title" in
  let? thumbnails := read (snippet_thumbnails snippet) "default" in
  let? default := read (thumbnails_default thumbnails) "url" in
  Returns
    {| videoID := id_videoId id;
       title := snippet_title snippet;
       url := "https://www.youtube.com/watch?v=" +:+ leaf_string (id_videoId id);
       publishedAt := snippet_publishedAt snippet;
       thumbnail := thumbnail_url default |}.

Definition no_items (ytData : SearchData) : bool :=
  match items ytData with
  | None | Some [] => true
  | Some (_ :: _) => false
  end.

Definition handler_try (env : Env) (data : Obj) (jobID email : Val) : M unit :=
  let channelID := prop data "channelID" in
  let channelName := prop data "channelName" in
  do! logger "info" "Fetching videos from yt channel" in
  let YOUTUBE_API_KEY := env_YOUTUBE_API_KEY env in
  do! (if negb (truthy YOUTUBE_API_KEY)
       then throw "YOUTUBE_API_KEY is not set in environment variables"
       else ret tt) in
  let! jobData := state_get ("job: " +:+ to_string jobID) in
  do! state_set ("job: " +:+ to_string jobID)
        (<["status" := VString "fetching videos"]> (spread jobData)) in
  let! body := fetch_json env (searchURL channelID YOUTUBE_API_KEY) in
  let! ytData := lift (read body "items") in
  if no_items ytData then
    do! logger "warn" "No videos found for channel" in
    do! state_set ("job: " +:+ to_string jobID)
          (<["error" := VString "no videos found"]>
             (<["status" := VString "failed"]> (spread jobData))) in
    do! emit (mkEvent "yt.videos.error"
                {[ "jobID" := jobID;
                   "email" := email;
                   "error" := VString "No videos found for channel" ]}) in
    ret tt
  else
    let! videos := lift (map_items to_video (default [] (items ytData))) in
    do! logger "info" "Fetched videos" in
    do! state_set ("job: " +:+ to_string jobID)
          (<["videos" := VVideos videos]>
             (<["status" := VString "videos fetched"]> (spread jobData))) in
    do! emit (mkEvent "yt.videos.fetched"
                {[ "jobID" := jobID;
                   "videos" := VVideos videos;
                   "channelName" := channelName;
                   "email" := email ]}) in
    ret tt.

Definition handler_catch (jobID email : Val) (message : string) : M unit :=
  do! logger "error" "Error fetching videos" in
  if negb (truthy jobID) || negb (truthy email) then
    do! logger "error" "JobID or Email is required" in
    ret tt
  else
    let! jobData := state_get ("job: " +:+ to_string jobID) in
    do! state_set ("job: " +:+ to_string jobID)
          (<["error" := VString message]>
             (<["status" := VString "failed"]> (spread jobData))) in
    do! emit (mkEvent "yt.videos.error"
                {[ "jobID" := jobID;
                   "email" := email;
                   "error" := VString ("Failed to fetch videos: " +:+ message) ]}) in
    ret tt.

Definition handler (env : Env) (eventData : option Obj) : M unit :=
  let data := default ∅ eventData in
  let jobID := prop data "jobID" in
  let email := prop data "email" in
  try_catch (handler_try env data jobID email) (handler_catch jobID email).

End FetchVideos.

(** ** The event bus

    The wiring declared by the [config] objects: ResolveChannel subscribes to
    [yt.submit], FetchVideos to [yt.channel.resolved]; the other topics have
    no subscriber among these steps. [deliver] hands one event to its
    subscriber, [deliver_all] a list of events in order, and [pipeline]
    follows one submission, each emitted event being delivered once. *)

Definition deliver (env : Env) (e : Event) : M unit :=
  if String.eqb (topic e) "yt.submit" then
    ResolveChannel.handler env (Some (data e))
  else if String.eqb (topic e) "yt.channel.resolved" then
    FetchVideos.handler env (Some (data e))
  else ret tt.

Fixpoint deliver_all (env : Env) (es : list Event) : M unit :=
  match es with
  | [] => ret tt
  | e :: es' => do! deliver env e in deliver_all env es'
  end.

(** One submission followed through the three steps. *)
Definition pipeline (submit : Env → Request → M Response)
    (env : Env) (req : Request) : M Response := λ st,
  let r1 := submit env req st in
  let r2 := deliver_all env (emitted (ops r1)) (final r1) in
  let r3 := deliver_all env (emitted (ops r2)) (final r2) in
  mkRun (outcome r1) (final r3) (ops r1 ++ ops r2 ++ ops r3).

(** ** Vocabulary of the properties *)

(** The five statuses. The specification calls them [queued],
    [resolving-channel], [fetching-items], [items-fetched] and [failed];
    [status_literal] gives the string each handler stores. *)
Inductive Status : Type :=
| Queued
| ResolvingChannel
| FetchingItems
| ItemsFetched
| Failed.

Definition status_literal (s : Status) : string :=
  match s with
  | Queued => "queued"
  | ResolvingChannel => "resolving channel"
  | FetchingItems => "fetching videos"
  | ItemsFetched => "videos fetched"
  | Failed => "failed"
  end.

(** Position in the pipeline order; [failed] is terminal. *)
Definition status_rank (s : Status) : nat :=
  match s with
  | Queued => 0
  | ResolvingChannel => 1
  | FetchingItems => 2
  | ItemsFetched => 3
  | Failed => 4
  end.

Definition parse_status (s : string) : option Status :=
  if String.eqb s "queued" then Some Queued
  else if String.eqb s "resolving channel" then Some ResolvingChannel
  else if String.eqb s "fetching videos" then Some FetchingItems
  else if String.eqb s "videos fetched" then Some ItemsFetched
  else if String.eqb s "failed" then Some Failed
  else None.

Fixpoint nondecreasing (l : list nat) : bool :=
  match l with
  | [] => true
  | x :: l' =>
      match l' with
      | [] => true
      | y :: _ => (x <=? y)%nat && nondecreasing l'
      end
  end.

(** The [status] field of each record written, in order. *)
Definition written_statuses (l : list Op) : list (option Val) :=
  map (λ kv, kv.2 !! "status") (writes l).

Definition status_of_field (f : option Val) : option Status :=
  match f with
  | Some (VString s) => parse_status s
  | _ => None
  end.

(** Every write of the trace stores one of the five statuses, and the
    statuses written never go back in the pipeline order. *)
Definition statuses_monotone (l : list Op) : bool :=
  match mapM status_of_field (written_statuses l) with
  | Some ss => nondecreasing (map status_rank ss)
  | None => false
  end.

(** [job_<digits>_<alphanumeric>] *)
Definition jobID_shape (s : string) : Prop :=
  ∃ digits suffix,
    s = "job_" +:+ digits +:+ "_" +:+ suffix
    ∧ digits ≠ "" ∧ all_chars is_digit digits = true
    ∧ suffix ≠ "" ∧ all_chars is_alnum suffix = true.

(** A submission the handler accepts: both fields truthy and the email
    matching the address pattern. *)
Definition valid_submission (b : Obj) : Prop :=
  truthy (prop b "channel") = true
  ∧ truthy (prop b "email") = true
  ∧ Regex.test Submit.emailRegex (to_string (prop b "email")) = true.

(** A submission with a missing (or empty) channel, a missing (or empty)
    email, or an email that does not match the pattern. *)
Definition invalid_submission (b : Obj) : Prop :=
  truthy (prop b "channel") = false
  ∨ truthy (prop b "email") = false
  ∨ Regex.test Submit.emailRegex (to_string (prop b "email")) = false.

(** The record [Submit] and [SubmitAlt] create. *)
Definition new_job (env : Env) (b : Obj) : Obj :=
  {[ "jobID" := VString (new_jobID env);
     "channel" := prop b "channel";
     "email" := prop b "email";
     "status" := VString "queued";
     "createdAt" := VString (env_Date_toISOString env) ]}.

(** The key the resolution and listing steps use for a job. *)
Definition job_key (jobID : Val) : string := "job: " +:+ to_string jobID.

(** The record a step reads at its start, as it is spread. *)
Definition read_record (st : gmap string Obj) (jobID : Val) : Obj :=
  spread (st !! job_key jobID).

(** The channel is a handle [@h] and the search for [h] returns at least one
    entry, the first of which has an [id] object with a usable channel id
    and a [snippet] object: the resolution succeeds with that entry. *)
Definition resolves_to (env : Env) (d : Obj) (id : ResourceId)
    (snippet : Snippet) : Prop :=
  truthy (env_YOUTUBE_API_KEY env) = true
  ∧ ∃ h rest,
      prop d "channel" = VString (String "@" h)
      ∧ env_fetch env (ResolveChannel.searchURL (VString h) (env_YOUTUBE_API_KEY env))
        = FetchOk (Has (mkSearchData
                          (Some (Has (mkSearchResult (Has id) (Has snippet)) :: rest))))
      ∧ truthy (leaf_val (id_channelId id)) = true.

(** *** The remote listing service

    A video of a channel as the service knows it, with the data the search
    resource shows. *)
Record Upload : Type := mkUpload {
  upload_videoId : string;
  upload_title : string;
  upload_publishedAt : string;
  upload_thumbnail : string;
}.

#[global] Instance Upload_eq_dec : EqDecision Upload.
Proof. solve_decision. Defined.

(** The search resource the service returns for a video: every member is
    there. *)
Definition entry_of (u : Upload) : Member SearchResult :=
  Has (mkSearchResult
         (Has (mkResourceId Missing (Has (upload_videoId u))))
         (Has (mkSnippet (Has (upload_title u)) (Has (upload_publishedAt u))
                 (Has (mkThumbnails
                         (Has (mkThumbnail (Has (upload_thumbnail u))))))))).

(** The Item record of that video: identifier, title, watch URL, publication
    time, thumbnail. *)
Definition video_of (u : Upload) : Video :=
  {| videoID := Has (upload_videoId u);
     title := Has (upload_title u);
     url := "https://www.youtube.com/watch?v=" +:+ upload_videoId u;
     publishedAt := Has (upload_publishedAt u);
     thumbnail := Has (upload_thumbnail u) |}.



(** How the service reads a request: [s] without its prefix [p], *)
Fixpoint strip_prefix (p s : string) : option string :=
  match p, s with
  | EmptyString, _ => Some s
  | String a p', String b s' =>
      if Ascii.eqb a b then strip_prefix p' s' else None
  | String _ _, EmptyString => None
  end.

(** the text up to the next [&], *)
Fixpoint until_ampersand (s : string) : string :=
  match s with
  | EmptyString => EmptyString
  | String c s' =>
      if Ascii.eqb c "&" then EmptyString else String c (until_ampersand s')
  end.

(** and the value of the first parameter [name] of the query string of a
    URL, as written (not decoded). *)
Fixpoint query_param (name : string) (url : string) : option string :=
  match url with
  | EmptyString => None
  | String c rest =>
      if Ascii.eqb c "?" || Ascii.eqb c "&" then
        match strip_prefix (name +:+ "=") rest with
        | Some value => Some (until_ampersand value)
        | None => query_param name rest
        end
      else query_param name rest
  end.



(** A number written in decimal digits. *)
Fixpoint parse_digits (acc : nat) (s : string) : option nat :=
  match s with
  | EmptyString => Some acc
  | String c s' =>
      if is_digit c then parse_digits (10 * acc + (N.to_nat (code c) - 48)) s'
      else None
  end.

Definition parse_nat (s : string) : option nat :=
  match s with
  | EmptyString => None
  | String _ _ => parse_digits 0 s
  end.



(** Every write of the trace stores one of the five statuses. *)
Definition known_status (f : option Val) : bool :=
  match status_of_field f with
  | Some _ => true
  | None => false
  end.

Definition statuses_known (l : list Op) : bool :=
  forallb known_status (written_statuses l).

(** The first entry of a search has the two objects the resolution reads,
    [id] and [snippet]. *)
Definition has_id_and_snippet (first : Member SearchResult) : Prop :=
  ∃ id snippet, first = Has (mkSearchResult (Has id) (Has snippet)).

(** An entry with every object the listing reads: [id], [snippet],
    [snippet.thumbnails] and [snippet.thumbnails.default]. *)
Definition complete (item : Member SearchResult) : bool :=
  match item with
  | Has (mkSearchResult (Has _)
           (Has (mkSnippet _ _ (Has (mkThumbnails (Has _)))))) => true
  | _ => false
  end.

(** The outcome of an accepted submission, for the handler that stores the
    job under [key]. *)
Definition accepted (key : string) (env : Env) (b : Obj)
    (st : gmap string Obj) (r : Run Response) : Prop :=
  outcome r
  = Returns (mkResponse 201
      (SuccessBody (new_jobID env)
         "Job submitted successfully. You will get an email soon."))
  ∧ final r = <[key := new_job env b]> st
  ∧ writes (ops r) = [(key, new_job env b)]
  ∧ emitted (ops r)
    = [mkEvent "yt.submit"
         {[ "jobID" := VString (new_jobID env);
            "channel" := prop b "channel";
            "email" := prop b "email" ]}].

(** The outcome of a rejected submission. *)
Definition rejected (st : gmap string Obj) (r : Run Response) : Prop :=
  (∃ msg, outcome r = Returns (mkResponse 400 (ErrorBody msg)))
  ∧ final r = st
  ∧ writes (ops r) = []
  ∧ emitted (ops r) = [].

(** After a failure raised in the [try] block (the run [at_failure]), the
    whole invocation [r] adds log entries only. *)
Definition only_logs_after {A} (at_failure r : Run A) : Prop :=
  final r = final at_failure
  ∧ ∃ logs, ops r = (ops at_failure ++ logs)%list ∧ forallb is_log logs = true.

(** A failure in a step whose payload gave no usable [jobID] or [email]:
    [t] is the run of the [try] block up to the failure, [r] the whole
    invocation. No event is emitted and nothing is done after the failure but
    logging; the store holds the status write [started] under [k] if the
    failure came after it, and is untouched if the credential was missing. *)
Definition dropped_silently (key : Val) (k : string) (started : Obj)
    (st : gmap string Obj) (t r : Run unit) : Prop :=
  only_logs_after t r
  ∧ emitted (ops r) = []
  ∧ (truthy key = false ∧ final r = st ∧ writes (ops r) = []
     ∨ truthy key = true
       ∧ final r = <[k := started]> st
       ∧ writes (ops r) = [(k, started)]).

(** What a submission does: nothing to the store and the bus, or one record
    with [status = "queued"] and one [yt.submit] event. *)
Definition submit_shape (r : Run Response) : Prop :=
  emitted (ops r) = [] ∧ written_statuses (ops r) = []
  ∨ ∃ e, emitted (ops r) = [e] ∧ topic e = "yt.submit"
         ∧ written_statuses (ops r) = [Some (VString "queued")].

(** ** Sample data *)

Definition sample_key : Val := VString "KEY".

Definition acme_id : ResourceId := mkResourceId (Has "UC123") Missing.

Definition acme_snippet : Snippet :=
  mkSnippet (Has "Acme") Missing Missing.

Definition acme_hit : Member SearchResult :=
  Has (mkSearchResult (Has acme_id) (Has acme_snippet)).

Definition sample_video (n day : string) : Upload :=
  mkUpload ("vid" +:+ n) ("Video " +:+ n)
    ("2024-03-" +:+ day +:+ "T10:00:00Z")
    ("https://i.ytimg.com/vi/vid" +:+ n +:+ "/default.jpg").

(** Seven uploads of the sample channel, in no particular order. *)
Definition seven_available : list Upload :=
  [sample_video "3" "13"; sample_video "7" "17"; sample_video "1" "11";
   sample_video "5" "15"; sample_video "2" "12"; sample_video "6" "16";
   sample_video "4" "14"].

(** The five most recent of them, most recent first. *)
Definition newest_five : list Upload :=
  [sample_video "7" "17"; sample_video "6" "16"; sample_video "5" "15";
   sample_video "4" "14"; sample_video "3" "13"].


(** A remote service that knows the channel [@acme] (id [UC123], seven
    uploads), finds nothing for the handle [ghost] but something for the raw
    text [@ghost], has no upload for [UC000], and is unreachable for
    anything else. *)
Definition sample_fetch (u : string) : FetchResult :=
  if String.eqb u (ResolveChannel.searchURL (VString "acme") sample_key) then
    FetchOk (Has (mkSearchData (Some [acme_hit])))
  else if String.eqb u (ResolveChannel.searchURL (VString "ghost") sample_key) then
    FetchOk (Has (mkSearchData (Some [])))
  else if String.eqb u (ResolveChannel.searchURL (VString "@ghost") sample_key) then
    FetchOk (Has (mkSearchData (Some [acme_hit])))
  else if String.eqb u (FetchVideos.searchURL (VString "UC123") sample_key) then
    FetchOk (Has (mkSearchData (Some (map entry_of newest_five))))
  else if String.eqb u (FetchVideos.searchURL (VString "UC000") sample_key) then
    FetchOk (Has (mkSearchData (Some [])))
  else FetchThrows "fetch failed".

Definition sample_env : Env :=
  mkEnv sample_key sample_fetch 1700000000000 "0.4fzyo82mvyr"
    "2023-11-14T22:13:20.000Z".

Definition sample_body : Obj :=
  {[ "channel" := VString "@acme"; "email" := VString "ana@example.org" ]}.

Definition sample_job : Obj :=
  {[ "jobID" := VString "j1";
     "channel" := VString "@acme";
     "email" := VString "ana@example.org";
     "status" := VString "queued";
     "createdAt" := VString "2023-11-14T22:13:20.000Z" ]}.

Definition sample_store : gmap string Obj := {[ "job: j1" := sample_job ]}.

Definition sample_submit_event : Obj :=
  {[ "jobID" := VString "j1";
     "channel" := VString "@acme";
     "email" := VString "ana@example.org" ]}.

Definition ghost_submit_event : Obj :=
  {[ "jobID" := VString "j1";
     "channel" := VString "@ghost";
     "email" := VString "ana@example.org" ]}.

(** A payload without [email], for a handle the service cannot be reached
    for. *)
Definition lost_submit_event : Obj :=
  {[ "jobID" := VString "j1"; "channel" := VString "@lost" ]}.

Definition sample_resolved_event : Obj :=
  {[ "jobID" := VString "j1";
     "channelID" := VString "UC123";
     "channelName" := VString "Acme";
     "email" := VString "ana@example.org" ]}.

Definition empty_resolved_event : Obj :=
  {[ "jobID" := VString "j1";
     "channelID" := VString "UC000";
     "channelName" := VString "Nobody";
     "email" := VString "ana@example.org" ]}.

(** ** The steps' declarations *)

(** The fields of Motia's [ApiRouteConfig] and [EventConfig] the steps set. *)
Record ApiRouteConfig : Type := mkApiRouteConfig {
  api_name : string;
  api_type : string;
  api_path : string;
  api_method : string;
  api_emits : list string;
}.

Record EventConfig : Type := mkEventConfig {
  ev_name : string;
  ev_type : string;
  ev_subscribes : list string;
  ev_emits : list string;
}.

(** [config] of [steps/01-submit.step.ts] (the same in both documents). *)
Module SubmitConfig.
Definition config : ApiRouteConfig :=
  mkApiRouteConfig "SubmitChannel" "api" "/submit" "POST" ["yt.submit"].
End SubmitConfig.

(** [config] of [steps/02-resolveChannel.step.ts]. *)
Module ResolveChannelConfig.
Definition config : EventConfig :=
  mkEventConfig "ResolveChannel" "event" ["yt.submit"]
    ["yt.channel.resolved"; "yt.channel.error"].
End ResolveChannelConfig.

(** [config] of the video listing step. *)
Module FetchVideosConfig.
Definition config : EventConfig :=
  mkEventConfig "FetchedVideos" "event" ["yt.channel.resolved"]
    ["yt.videos.fetched"; "yt.videos.error"].
End FetchVideosConfig.

(** Every event of the trace has a topic among [allowed]. *)
Definition declared (allowed : list string) (l : list Op) : bool :=
  forallb (λ e, existsb (String.eqb (topic e)) allowed) (emitted l).

Definition is_fetch (o : Op) : bool :=
  match o with Fetch _ => true | _ => false end.

(** The fetches of a trace. *)
Definition fetched (l : list Op) : list string :=
  omap (λ o, match o with Fetch u => Some u | _ => None end) l.

(** [{...base, status: "failed", error: message}] *)
Definition failed_record (message : string) (base : Obj) : Obj :=
  <["error" := VString message]> (<["status" := VString "failed"]> base).

(** The status code of the response, when the handler returns one. *)
Definition response_status (r : Run Response) : option Z :=
  match outcome r with
  | Returns resp => Some (status resp)
  | Throws _ => None
  end.

(** A submission answers 201, 400 or 500, and touches the store and the bus
    exactly when it answers 201. *)
Definition untouched_unless_created (st : gmap string Obj)
    (r : Run Response) : Prop :=
  (response_status r = Some 201%Z ∨ response_status r = Some 400%Z
   ∨ response_status r = Some 500%Z)
  ∧ (response_status r = Some 201%Z ↔ length (writes (ops r)) = 1)
  ∧ (response_status r = Some 201%Z ↔ length (emitted (ops r)) = 1)
  ∧ (response_status r ≠ Some 201%Z →
     final r = st ∧ writes (ops r) = [] ∧ emitted (ops r) = []).

(** The characters [encodeURIComponent] can produce: the unreserved ones and
    the percent sign. *)
Definition url_safe (c : ascii) : bool := uri_unreserved c || Ascii.eqb c "%".

(** Reading back one character of an encoded text (used to show that the
    encoding loses nothing): an upper-case hexadecimal digit, a percent
    escape, and the character the next one or two escapes stand for. *)
Definition unhex (c : ascii) : option N :=
  let n := code c in
  if ((48 <=? n) && (n <=? 57))%N then Some (n - 48)%N
  else if ((65 <=? n) && (n <=? 70))%N then Some (n - 55)%N
  else None.

Definition unpercent (s : string) : option (N * string) :=
  match s with
  | String p (String a (String b rest)) =>
      if Ascii.eqb p "%" then
        match unhex a, unhex b with
        | Some x, Some y => Some (16 * x + y, rest)%N
        | _, _ => None
        end
      else None
  | _ => None
  end.

Definition decode_char (s : string) : option (ascii * string) :=
  match s with
  | EmptyString => None
  | String c rest =>
      if Ascii.eqb c "%" then
        match unpercent s with
        | Some (n, rest1) =>
            if (n <? 128)%N then Some (ascii_of_N n, rest1)
            else
              match unpercent rest1 with
              | Some (m, rest2) =>
                  Some (ascii_of_N ((n - 192) * 64 + (m - 128)), rest2)
              | None => None
              end
        | None => None
        end
      else Some (c, rest)
  end.

(** A record whose status is final. *)
Definition terminal (o : Obj) : Prop :=
  o !! "status" = Some (VString "failed")
  ∨ o !! "status" = Some (VString "videos fetched").

(** [o] agrees with [base] outside [status], [error] and [videos]. *)
Definition keeps_fields (o base : Obj) : Prop :=
  ∀ f, f ≠ "status" → f ≠ "error" → f ≠ "videos" → o !! f = base !! f.

(** *** More sample data *)

(** The sample environment without the credential. *)
Definition keyless_env : Env :=
  mkEnv VUndefined sample_fetch 1700000000000 "0.4fzyo82mvyr"
    "2023-11-14T22:13:20.000Z".

(** The sample environment one millisecond later. *)
Definition later_env : Env :=
  mkEnv sample_key sample_fetch 1700000000001 "0.4fzyo82mvyr"
    "2023-11-14T22:13:20.001Z".

(** A first entry that is not a channel: its [id] has no [channelId]. *)
Definition hit_without_id : Member SearchResult :=
  Has (mkSearchResult (Has (mkResourceId Missing (Has "vid9")))
         (Has (mkSnippet (Has "A video") Missing Missing))).

(** A first entry without an [id] object. *)
Definition hit_without_id_object : Member SearchResult :=
  Has (mkSearchResult Missing
         (Has (mkSnippet (Has "A video") Missing Missing))).

(** An entry of a listing without thumbnails. *)
Definition entry_without_thumbnails : Member SearchResult :=
  Has (mkSearchResult (Has (mkResourceId Missing (Has "vid8")))
         (Has (mkSnippet (Has "Video 8") (Has "2024-03-18T10:00:00Z")
                 Missing))).

(** A service that answers the handle [mixed] with an entry that is not a
    channel, the handle [broken] with an entry without [id], the listing of
    [UC123] with all seven uploads, and the listing of [UC404] with an entry
    without thumbnails after a complete one. *)
Definition lax_fetch (u : string) : FetchResult :=
  if String.eqb u (ResolveChannel.searchURL (VString "mixed") sample_key) then
    FetchOk (Has (mkSearchData (Some [hit_without_id; acme_hit])))
  else if String.eqb u (ResolveChannel.searchURL (VString "broken") sample_key) then
    FetchOk (Has (mkSearchData (Some [hit_without_id_object; acme_hit])))
  else if String.eqb u (FetchVideos.searchURL (VString "UC123") sample_key) then
    FetchOk (Has (mkSearchData (Some (map entry_of seven_available))))
  else if String.eqb u (FetchVideos.searchURL (VString "UC404") sample_key) then
    FetchOk (Has (mkSearchData
                    (Some [entry_of (sample_video "7" "17");
                           entry_without_thumbnails])))
  else FetchThrows "fetch failed".

Definition lax_env : Env :=
  mkEnv sample_key lax_fetch 1700000000000 "0.4fzyo82mvyr"
    "2023-11-14T22:13:20.000Z".




(** The payload of a [yt.channel.resolved] event for a channel id. *)
Definition resolved_event_for (channelID : string) : Obj :=
  {[ "jobID" := VString "j1";
     "channelID" := VString channelID;
     "channelName" := VString "Acme";
     "email" := VString "ana@example.org" ]}.

(** The payload of a [yt.submit] event for the sample job. *)
Definition event_for (channel : Val) : Obj :=
  {[ "jobID" := VString "j1"; "channel" := channel;
     "email" := VString "ana@example.org" ]}.

(** A payload with no [channel]. *)
Definition event_without_channel : Obj :=
  {[ "jobID" := VString "j1"; "email" := VString "ana@example.org" ]}.

(** A store in which the sample job has already failed. *)
Definition failed_store : gmap string Obj :=
  {[ "job: j1" := failed_record "Channel not found" sample_job ]}.

(** ** Proof tools *)

(** Run the monad: unfold the handlers and the operations, and reduce the
    binds whose outcome is known. Map operations are left alone. *)
Ltac js_run :=
  cbv beta iota zeta delta
    [bind try_catch ret throw state_get state_set emit logger destructure
     fetch_json lift read outcome final ops app req_body fst snd negb orb andb
     from_option id
     Submit.handler Submit.handler_try Submit.handler_catch
     SubmitAlt.handler SubmitAlt.handler_try SubmitAlt.handler_catch
     ResolveChannel.handler ResolveChannel.handler_try
     ResolveChannel.handler_catch ResolveChannel.resolve
     ResolveChannel.startsWith_at
     FetchVideos.handler FetchVideos.handler_try FetchVideos.handler_catch
     FetchVideos.no_items].

(** Split on the next test a handler makes. *)
Ltac js_branch :=
  match goal with
  | |- context [match truthy ?v with _ => _ end] =>
      destruct (truthy v) eqn:?
  | |- context [match env_fetch ?e ?u with _ => _ end] =>
      destruct (env_fetch e u) as [[| |[[[|? ?]|]]]|?] eqn:?
  | |- context [match ResolveChannel.first_hit ?f with _ => _ end] =>
      destruct (ResolveChannel.first_hit f) as [[? ?]|?] eqn:?
  | |- context [match map_items ?f ?l with _ => _ end] =>
      destruct (map_items f l) eqn:?
  | |- context [match js_startsWith ?x ?c with _ => _ end] =>
      destruct (js_startsWith x c) eqn:?
  | |- context [match prop ?d ?k with _ => _ end] =>
      destruct (prop d k) eqn:?
  end.

Ltac js_cases := js_run; repeat (js_branch; js_run; cbn [items]).

(** A goal about one write of a concrete trace: the key is the job's and
    the field [f], which no insertion touches, is the one read. *)
Ltac frame_leaf Hin :=
  cbn [writes omap list_omap] in Hin;
  repeat (apply elem_of_cons in Hin as [Hin|Hin]);
  try (by apply elem_of_nil in Hin);
  injection Hin as -> ->;
  (split; [reflexivity|]);
  rewrite ?lookup_insert_eq; cbn [spread from_option id];
  rewrite ?lookup_insert_ne by (symmetry; assumption);
  reflexivity.

(** Compute the statuses written and the events emitted by a concrete
    trace. *)
Ltac status_leaf :=
  cbn [written_statuses emitted writes omap list_omap map fst snd topic];
  rewrite ?lookup_insert_eq;
  repeat (rewrite lookup_insert_ne by discriminate; rewrite ?lookup_insert_eq).

(** Split on the next test a handler makes, in the order the handler makes
    them. *)
Ltac js_step :=
  match goal with
  | |- context [match truthy (env_YOUTUBE_API_KEY ?e) with _ => _ end] =>
      destruct (truthy (env_YOUTUBE_API_KEY e)) eqn:?
  | |- context [match prop ?d ?k with _ => _ end] =>
      destruct (prop d k) eqn:?
  | |- context [match js_startsWith ?x ?c with _ => _ end] =>
      destruct (js_startsWith x c) eqn:?
  | |- context [match env_fetch ?e ?u with _ => _ end] =>
      destruct (env_fetch e u) as [[| |[[[|? ?]|]]]|?] eqn:?
  | |- context [match ResolveChannel.first_hit ?f with _ => _ end] =>
      destruct (ResolveChannel.first_hit f) as [[? ?]|?] eqn:?
  | |- context [match map_items ?f ?l with _ => _ end] =>
      destruct (map_items f l) eqn:?
  | |- context [match truthy ?v with _ => _ end] =>
      destruct (truthy v) eqn:?
  end.

Ltac js_walk := js_run; repeat (js_step; js_run; cbn [items]).

(** Read a property of an object literal. *)
Ltac prop_lookup :=
  unfold prop;
  repeat first [ rewrite lookup_insert_eq
               | rewrite lookup_insert_ne by discriminate
               | rewrite lookup_singleton_eq ];
  cbn [from_option id].

(** Go through the members of a concrete list. *)
Ltac each_in Hin :=
  repeat (apply elem_of_cons in Hin as [Hin|Hin]);
  try (by apply elem_of_nil in Hin).

Ltac norm_lookups :=
  repeat first [ rewrite lookup_insert_eq
               | rewrite lookup_insert_ne by discriminate ].

Ltac norm_lookups_in H :=
  repeat first [ rewrite lookup_insert_eq in H
               | rewrite lookup_insert_ne in H by discriminate ].

(** A goal about the [status] and [error] fields of one write of a concrete
    trace. *)
Ltac error_leaf Hin :=
  cbn [writes omap list_omap] in Hin; each_in Hin;
  injection Hin as -> ->;
  rewrite ?lookup_insert_eq; cbn [spread from_option id];
  (split; intros Hst;
   [ norm_lookups_in Hst; first [discriminate Hst | norm_lookups; eauto]
   | first [ exfalso; apply Hst; norm_lookups; reflexivity
           | norm_lookups; reflexivity ] ]).

(** The final store of a concrete run: the writes under one key collapse. *)
Ltac caught_leaf :=
  unfold failed_record; cbn [final ops];
  rewrite ?lookup_insert_eq; cbn [spread from_option id];
  rewrite !insert_insert_eq; reflexivity.

Ltac keeps_leaf :=
  let f := fresh "f" in
  intros f ? ? ?; rewrite ?lookup_insert_eq; cbn [spread from_option id];
  rewrite ?lookup_insert_ne by congruence; reflexivity.

(** ** Strings *)

Section Strings.

Lemma all_digits_uint (d : Decimal.uint) :
  all_chars is_digit (NilEmpty.string_of_uint d) = true.
Proof.
  induction d; cbn [NilEmpty.string_of_uint all_chars];
    try rewrite IHd; reflexivity.
Qed.

Lemma Z_to_string_digits (z : Z) :
  (0 ≤ z)%Z →
  Z_to_string z ≠ "" ∧ all_chars is_digit (Z_to_string z) = true.
Proof.
  intros Hz. unfold Z_to_string.
  destruct z as [|p|p]; [split; [discriminate|reflexivity]| |lia].
  cbn [Z.to_int NilZero.string_of_int]. split.
  - destruct (Pos.to_uint p); discriminate.
  - destruct (Pos.to_uint p) as [|u|u|u|u|u|u|u|u|u|u];
      try reflexivity; apply (all_digits_uint (_ u)).
Qed.

Lemma all_chars_substring0 (p : ascii → bool) (n : nat) (s : string) :
  all_chars p s = true → all_chars p (String.substring 0 n s) = true.
Proof.
  revert s; induction n as [|n IH]; intros [|c s]; cbn; try reflexivity.
  intros [Hc Hs]%andb_prop. rewrite Hc. cbn. auto.
Qed.

Lemma base36_alnum (s : string) :
  all_chars is_base36 s = true → all_chars is_alnum s = true.
Proof.
  induction s as [|c s IH]; cbn [all_chars]; [reflexivity|].
  intros [Hc Hs]%andb_prop. rewrite (IH Hs), andb_true_r.
  unfold is_alnum. unfold is_base36 in Hc. rewrite Hc. reflexivity.
Qed.

(** The seven characters after ["0."] of the random number in radix 36. *)
Lemma random_suffix (frac : string) :
  frac ≠ "" → all_chars is_base36 frac = true →
  js_substring 2 9 ("0." +:+ frac) ≠ ""
  ∧ all_chars is_alnum (js_substring 2 9 ("0." +:+ frac)) = true.
Proof.
  intros Hne Hall. unfold js_substring.
  change (String.substring 2 (9 - 2) ("0." +:+ frac))
    with (String.substring 0 7 frac).
  split.
  - destruct frac; [done|discriminate].
  - apply all_chars_substring0, base36_alnum, Hall.
Qed.

Lemma new_jobID_shape (env : Env) (frac : string) :
  (0 ≤ env_Date_now env)%Z →
  env_Math_random_36 env = "0." +:+ frac →
  frac ≠ "" → all_chars is_base36 frac = true →
  jobID_shape (new_jobID env).
Proof.
  intros Hnow Hrnd Hne Hall.
  destruct (Z_to_string_digits _ Hnow) as [Hd1 Hd2].
  destruct (random_suffix frac Hne Hall) as [Hs1 Hs2].
  exists (Z_to_string (env_Date_now env)), (js_substring 2 9 ("0." +:+ frac)).
  unfold new_jobID. rewrite Hrnd. done.
Qed.

(** The two key formats give different keys for the same job. *)
Lemma key_formats_differ (j : string) : "job:" +:+ j ≠ "job: " +:+ j.
Proof.
  intros H. apply (f_equal String.length) in H.
  change (4 + String.length j = 5 + String.length j) in H. lia.
Qed.

Lemma all_chars_app (p : ascii → bool) (a b : string) :
  all_chars p (a +:+ b) = all_chars p a && all_chars p b.
Proof.
  induction a as [|c a IH]; [reflexivity|].
  change (all_chars p (String c (a +:+ b))
          = all_chars p (String c a) && all_chars p b).
  cbn [all_chars]. by rewrite IH, andb_assoc.
Qed.

Lemma encode_char_safe (c : ascii) : all_chars url_safe (encode_char c) = true.
Proof. destruct c as [[] [] [] [] [] [] [] []]; reflexivity. Qed.

(** Each character can be read back from its encoding, whatever follows. *)
Lemma decode_encode_char (c : ascii) (x : string) :
  decode_char (encode_char c +:+ x) = Some (c, x).
Proof. destruct c as [[] [] [] [] [] [] [] []]; reflexivity. Qed.

Lemma encode_safe (s : string) :
  all_chars url_safe (encodeURIComponent_string s) = true.
Proof.
  induction s as [|c s IH]; [reflexivity|].
  cbn [encodeURIComponent_string].
  by rewrite all_chars_app, encode_char_safe, IH.
Qed.

End Strings.

(** ** The matcher and the address pattern *)

Section Patterns.

Import Regex.

Lemma append_nil_inv (u v : string) : u +:+ v = "" → u = "" ∧ v = "".
Proof. destruct u; [done|discriminate]. Qed.

Lemma append_cons_inv (u v : string) (c : ascii) (s : string) :
  u +:+ v = String c s →
  u = "" ∧ v = String c s ∨ ∃ u', u = String c u' ∧ s = u' +:+ v.
Proof.
  destruct u as [|d u]; intros H.
  - left. split; [reflexivity|exact H].
  - right. change (String d (u +:+ v) = String c s) in H.
    injection H as -> <-. eauto.
Qed.

Lemma nullable_spec (r : re) : nullable r = true ↔ Matches r "".
Proof.
  induction r as [| |p|r IHr s IHs|r IHr s IHs|r IHr]; cbn [nullable].
  - split; [discriminate|inversion 1].
  - split; [constructor|done].
  - split; [discriminate|inversion 1].
  - rewrite andb_true_iff, IHr, IHs. split.
    + intros [Hr Hs]. apply (MCat r s "" "" Hr Hs).
    + inversion 1 as [| |? ? u v Hu Hv Heq| | | |]; subst.
      match goal with H : _ +:+ _ = "" |- _ =>
        apply append_nil_inv in H as [-> ->] end. done.
  - rewrite orb_true_iff, IHr, IHs. split.
    + intros [?|?]; [by apply MAltL|by apply MAltR].
    + inversion 1; subst; auto.
  - split; [constructor|done].
Qed.

Lemma star_cons_inv (r : re) (c : ascii) (s : string) :
  Matches (Star r) (String c s) →
  ∃ u v, s = u +:+ v ∧ Matches r (String c u) ∧ Matches (Star r) v.
Proof.
  intros H. remember (Star r) as sr eqn:Hsr. remember (String c s) as w eqn:Hw.
  revert s Hw. induction H as [| | | | | |r' u v Hu _ Hv IHv]; intros s0 Hw;
    try discriminate.
  injection Hsr as ->.
  apply append_cons_inv in Hw as [[-> ->]|(u' & -> & ->)]; eauto.
Qed.

Lemma deriv_spec (c : ascii) (r : re) (s : string) :
  Matches (deriv c r) s ↔ Matches r (String c s).
Proof.
  revert s. induction r as [| |p|r IHr t IHt|r IHr t IHt|r IHr]; intros s;
    cbn [deriv].
  - split; inversion 1.
  - split; inversion 1.
  - destruct (p c) eqn:Hp; split.
    + inversion 1; subst. by constructor.
    + inversion 1; subst. constructor.
    + inversion 1.
    + inversion 1; subst. congruence.
  - destruct (nullable r) eqn:Hn; split.
    + inversion 1 as [| | |? ? ? Hl|? ? ? Hr| |]; subst.
      * inversion Hl as [| |? ? u v Hu Hv| | | |]; subst.
        apply IHr in Hu. apply (MCat r t (String c u) v Hu Hv).
      * apply IHt in Hr. apply nullable_spec in Hn.
        apply (MCat r t "" (String c s) Hn Hr).
    + inversion 1 as [| |? ? u v Hu Hv| | | |]; subst.
      match goal with Heq : _ +:+ _ = String _ _ |- _ =>
        apply append_cons_inv in Heq as [[-> ->]|(u' & -> & ->)] end.
      * apply MAltR. by apply IHt.
      * apply MAltL. apply MCat; [by apply IHr|done].
    + inversion 1 as [| |? ? u v Hu Hv| | | |]; subst.
      apply IHr in Hu. apply (MCat r t (String c u) v Hu Hv).
    + inversion 1 as [| |? ? u v Hu Hv| | | |]; subst.
      match goal with Heq : _ +:+ _ = String _ _ |- _ =>
        apply append_cons_inv in Heq as [[-> ->]|(u' & -> & ->)] end.
      * apply nullable_spec in Hu. congruence.
      * apply MCat; [by apply IHr|done].
  - split.
    + inversion 1; subst; [apply MAltL|apply MAltR]; [by apply IHr|by apply IHt].
    + inversion 1; subst; [apply MAltL|apply MAltR]; [by apply IHr|by apply IHt].
  - split.
    + inversion 1 as [| |? ? u v Hu Hv| | | |]; subst.
      apply IHr in Hu. apply (MStarApp r (String c u) v Hu Hv).
    + intros (u & v & -> & Hu & Hv)%star_cons_inv.
      apply MCat; [by apply IHr|done].
Qed.

(** The matcher decides the denotation. *)
Lemma test_spec (r : re) (s : string) : test r s = true ↔ Matches r s.
Proof.
  revert r. induction s as [|c s IH]; intros r; cbn [test].
  - apply nullable_spec.
  - rewrite IH. apply deriv_spec.
Qed.

(** One or more characters of a class. *)
Lemma plus_class_spec (p : ascii → bool) (s : string) :
  Matches (Plus (Class p)) s ↔ s ≠ "" ∧ all_chars p s = true.
Proof.
  assert (Hstar : ∀ s, Matches (Star (Class p)) s ↔ all_chars p s = true).
  { intros w. split.
    - intros H. remember (Star (Class p)) as sr eqn:Hsr.
      induction H as [| | | | | |r' u v Hu _ Hv IHv]; try discriminate;
        [reflexivity|].
      injection Hsr as ->. inversion Hu; subst.
      change (all_chars p (String c v) = true). cbn [all_chars].
      rewrite IHv by reflexivity. by rewrite andb_true_r.
    - induction w as [|c w IH]; cbn [all_chars]; [constructor|].
      intros [Hc Hw]%andb_prop.
      apply (MStarApp (Class p) (String c "") w); [by constructor|auto]. }
  unfold Plus. split.
  - inversion 1 as [| |? ? u v Hu Hv| | | |]; subst. inversion Hu; subst.
    change (String c v ≠ "" ∧ all_chars p (String c v) = true).
    cbn [all_chars]. apply Hstar in Hv. rewrite Hv.
    split; [discriminate|by rewrite andb_true_r].
  - intros [Hne Hall]. destruct s as [|c s]; [done|].
    cbn [all_chars] in Hall. apply andb_prop in Hall as [Hc Hs].
    apply (MCat (Class p) (Star (Class p)) (String c "") s);
      [by constructor|by apply Hstar].
Qed.

Lemma chr_spec (c : ascii) (s : string) :
  Matches (Chr c) s ↔ s = String c "".
Proof.
  unfold Chr. split.
  - inversion 1 as [|? d Hd| | | | |]; subst.
    apply Ascii.eqb_eq in Hd. by subst.
  - intros ->. constructor. apply Ascii.eqb_refl.
Qed.

Lemma cat_spec (r t : re) (s : string) :
  Matches (Cat r t) s ↔ ∃ u v, s = u +:+ v ∧ Matches r u ∧ Matches t v.
Proof.
  split.
  - inversion 1; subst; eauto.
  - intros (u & v & -> & Hu & Hv). by constructor.
Qed.

(** X1. The address pattern, read off: a local part, ["@"], a domain, ["."]
    and an ending, each a non-empty run of characters that are neither
    white space nor ["@"]. *)
Lemma emailRegex_spec (s : string) :
  test Submit.emailRegex s = true ↔
  ∃ a b c,
    s = a +:+ "@" +:+ b +:+ "." +:+ c
    ∧ (a ≠ "" ∧ all_chars not_space_at a = true)
    ∧ (b ≠ "" ∧ all_chars not_space_at b = true)
    ∧ (c ≠ "" ∧ all_chars not_space_at c = true).
Proof.
  rewrite test_spec. unfold Submit.emailRegex. split.
  - intros (a & ? & -> & Ha & (? & ? & -> & ->%chr_spec
            & (b & ? & -> & Hb & (? & c & -> & ->%chr_spec & Hc)%cat_spec)
              %cat_spec)%cat_spec)%cat_spec.
    apply plus_class_spec in Ha, Hb, Hc. exists a, b, c. done.
  - intros (a & b & c & -> & Ha & Hb & Hc).
    apply plus_class_spec in Ha, Hb, Hc.
    apply MCat; [done|]. apply (MCat _ _ "@"); [by apply chr_spec|].
    apply MCat; [done|]. apply (MCat _ _ "."); [by apply chr_spec|done].
Qed.

End Patterns.

(** ** The definitions at work *)

Example jobID_sample : new_jobID sample_env = "job_1700000000000_4fzyo82".
Proof. reflexivity. Qed.

Example email_accepted :
  Regex.test Submit.emailRegex "ana@example.org" = true
  ∧ Regex.test Submit.emailRegex "a.b@c.d.e" = true.
Proof. split; reflexivity. Qed.

Example email_refused :
  Regex.test Submit.emailRegex "ana@example" = false
  ∧ Regex.test Submit.emailRegex "ana@@example.org" = false
  ∧ Regex.test Submit.emailRegex "ana maria@example.org" = false
  ∧ Regex.test Submit.emailRegex "ana@.org" = false
  ∧ Regex.test Submit.emailRegex "ana@example." = false
  ∧ Regex.test Submit.emailRegex "" = false.
Proof. repeat split; reflexivity. Qed.

Example handle_search_url :
  ResolveChannel.searchURL (VString "@a b/c") sample_key
  = "https://www.googleapis.com/youtube/v3/search?part=snippet&type=channel&q=%40a%20b%2Fc&key=KEY".
Proof. reflexivity. Qed.

Example listing_url :
  FetchVideos.searchURL (VString "UC123") sample_key
  = "https://www.googleapis.com/youtube/v3/search?part=snippet&channelId=UC123&maxResults=5&order=date&type=video&key=KEY".
Proof. reflexivity. Qed.

Example undefined_in_templates :
  job_key VUndefined = "job: undefined"
  ∧ to_string (VVideos [video_of (sample_video "7" "17");
                        video_of (sample_video "6" "16")])
    = "[object Object],[object Object]".
Proof. split; reflexivity. Qed.

(** Property reads on entries of a response: a complete entry gives its
    video; a missing [id], a [null] entry or missing thumbnails raise a
    TypeError. *)
Example to_video_reads :
  FetchVideos.to_video (entry_of (sample_video "7" "17"))
  = Returns (video_of (sample_video "7" "17"))
  ∧ FetchVideos.to_video hit_without_id_object
    = Throws "Cannot read properties of undefined (reading 'videoId')"
  ∧ FetchVideos.to_video Null
    = Throws "Cannot read properties of null (reading 'id')"
  ∧ FetchVideos.to_video entry_without_thumbnails
    = Throws "Cannot read properties of undefined (reading 'default')"
  ∧ ResolveChannel.first_hit acme_hit = Returns (VString "UC123", VString "Acme")
  ∧ ResolveChannel.first_hit hit_without_id = Returns (VUndefined, VString "A video")
  ∧ ResolveChannel.first_hit hit_without_id_object
    = Throws "Cannot read properties of undefined (reading 'channelId')".
Proof. repeat split; reflexivity. Qed.

(** The parameters of the two request URLs, as a service reads them. *)
Example request_parameters :
  let u := FetchVideos.searchURL (VString "UC 123") sample_key in
  query_param "channelId" u = Some "UC%20123"
  ∧ query_param "maxResults" u ≫= parse_nat = Some 5
  ∧ query_param "order" u = Some "date"
  ∧ query_param "type" u = Some "video"
  ∧ query_param "key" u = Some "KEY"
  ∧ query_param "q" u = None
  ∧ query_param "q" (ResolveChannel.searchURL (VString "@acme") sample_key)
    = Some "%40acme".
Proof. cbv zeta. repeat split; reflexivity. Qed.

(** A missing payload is read as the empty object. *)
Lemma missing_payload (env : Env) (st : gmap string Obj) :
  ResolveChannel.handler env None st = ResolveChannel.handler env (Some ∅) st
  ∧ FetchVideos.handler env None st = FetchVideos.handler env (Some ∅) st.
Proof. split; reflexivity. Qed.

(** ** Submission *)

Section Submission.

Variables (env : Env) (b : Obj) (st : gmap string Obj).

Lemma submit_valid_run :
  valid_submission b →
  Submit.handler env (mkRequest (Some b)) st
  = mkRun
      (Returns (mkResponse 201
         (SuccessBody (new_jobID env)
            "Job submitted successfully. You will get an email soon.")))
      (<["job:" +:+ new_jobID env := new_job env b]> st)
      [Log "info" "Received submission request";
       StateSet ("job:" +:+ new_jobID env) (new_job env b);
       Log "info" "Job created";
       Emit (mkEvent "yt.submit"
               {[ "jobID" := VString (new_jobID env);
                  "channel" := prop b "channel";
                  "email" := prop b "email" ]})].
Proof.
  intros (Hc & He & Hre). js_run. rewrite Hc, He, Hre. reflexivity.
Qed.

Lemma submit_alt_valid_run :
  valid_submission b →
  SubmitAlt.handler env (mkRequest (Some b)) st
  = mkRun
      (Returns (mkResponse 201
         (SuccessBody (new_jobID env)
            "Job submitted successfully. You will get an email soon.")))
      (<["job: " +:+ new_jobID env := new_job env b]> st)
      [Log "info" "Received submission request";
       StateSet ("job: " +:+ new_jobID env) (new_job env b);
       Log "info" "Job created";
       Emit (mkEvent "yt.submit"
               {[ "jobID" := VString (new_jobID env);
                  "channel" := prop b "channel";
                  "email" := prop b "email" ]})].
Proof.
  intros (Hc & He & Hre). js_run.
  change SubmitAlt.eamilRegex with Submit.emailRegex.
  rewrite Hc, He, Hre. reflexivity.
Qed.

Lemma submit_invalid_run :
  invalid_submission b →
  ∃ msg,
    Submit.handler env (mkRequest (Some b)) st
    = mkRun (Returns (mkResponse 400 (ErrorBody msg))) st
        [Log "info" "Received submission request"].
Proof.
  intros Hbad. js_run.
  destruct (truthy (prop b "channel")) eqn:Hc; [|eauto].
  destruct (truthy (prop b "email")) eqn:He; [|eauto].
  destruct (Regex.test Submit.emailRegex (to_string (prop b "email")))
    eqn:Hre; [|eauto].
  destruct Hbad as [?|[?|?]]; congruence.
Qed.

Lemma submit_alt_invalid_run :
  invalid_submission b →
  ∃ msg,
    SubmitAlt.handler env (mkRequest (Some b)) st
    = mkRun (Returns (mkResponse 400 (ErrorBody msg))) st
        [Log "info" "Received submission request"].
Proof.
  intros Hbad. js_run. change SubmitAlt.eamilRegex with Submit.emailRegex.
  destruct (truthy (prop b "channel")) eqn:Hc; [|eauto].
  destruct (truthy (prop b "email")) eqn:He; [|eauto].
  destruct (Regex.test Submit.emailRegex (to_string (prop b "email")))
    eqn:Hre; [|eauto].
  destruct Hbad as [?|[?|?]]; congruence.
Qed.

(** C4. A submission whose channel and email are both present (truthy) and
    whose email matches the address pattern is answered with 201 and the
    new jobID; one record with [status = "queued"] is written under the
    job's key, exactly one [yt.submit] event carrying
    [{jobID, channel, email}] is emitted, and the jobID has the shape
    [job_<digits>_<alphanumeric>] (the clock being non-negative and the
    random number printing as ["0."] followed by radix-36 digits). Both
    documents of the submit step behave so, each under its own key
    format. *)
Theorem submit_creates_job (frac : string) :
  valid_submission b →
  (0 ≤ env_Date_now env)%Z →
  env_Math_random_36 env = "0." +:+ frac →
  frac ≠ "" →
  all_chars is_base36 frac = true →
  jobID_shape (new_jobID env)
  ∧ new_job env b !! "status" = Some (VString "queued")
  ∧ new_job env b !! "jobID" = Some (VString (new_jobID env))
  ∧ accepted ("job:" +:+ new_jobID env) env b st
      (Submit.handler env (mkRequest (Some b)) st)
  ∧ accepted ("job: " +:+ new_jobID env) env b st
      (SubmitAlt.handler env (mkRequest (Some b)) st).
Proof.
  intros Hvalid Hnow Hrnd Hne Hall.
  split; [eapply new_jobID_shape; eauto|].
  split; [done|]. split; [done|].
  unfold accepted.
  rewrite (submit_valid_run Hvalid), (submit_alt_valid_run Hvalid).
  done.
Qed.

(** C5. A submission with a missing channel, a missing email or an email
    that does not match the address pattern is answered with 400; nothing
    is written to the job store and no event is emitted. *)
Theorem submit_rejects_invalid :
  invalid_submission b →
  rejected st (Submit.handler env (mkRequest (Some b)) st)
  ∧ rejected st (SubmitAlt.handler env (mkRequest (Some b)) st).
Proof.
  intros Hbad.
  destruct (submit_invalid_run Hbad) as [m1 ->].
  destruct (submit_alt_invalid_run Hbad) as [m2 ->].
  unfold rejected; cbn; eauto 10.
Qed.

End Submission.

Lemma submit_creates_job_witness :
  valid_submission sample_body
  ∧ jobID_shape (new_jobID sample_env)
  ∧ accepted ("job:" +:+ new_jobID sample_env) sample_env sample_body ∅
      (Submit.handler sample_env (mkRequest (Some sample_body)) ∅).
Proof.
  assert (Hv : valid_submission sample_body) by (vm_compute; done).
  split; [exact Hv|].
  destruct (submit_creates_job sample_env sample_body ∅ "4fzyo82mvyr")
    as (Hshape & _ & _ & Hacc & _).
  - exact Hv.
  - vm_compute; discriminate.
  - reflexivity.
  - discriminate.
  - reflexivity.
  - split; [exact Hshape|exact Hacc].
Defined.

Lemma submit_rejects_invalid_witness :
  invalid_submission {[ "channel" := VString "@acme" ]}
  ∧ rejected sample_store
      (Submit.handler sample_env
         (mkRequest (Some {[ "channel" := VString "@acme" ]})) sample_store).
Proof.
  assert (Hbad : invalid_submission {[ "channel" := VString "@acme" ]})
    by (right; left; reflexivity).
  split; [exact Hbad|].
  apply (submit_rejects_invalid sample_env _ sample_store Hbad).
Defined.

(** ** Channel resolution *)

Section Resolution.

Variables (env : Env) (d : Obj) (st : gmap string Obj).

Let jobID : Val := prop d "jobID".
Let email : Val := prop d "email".
Let key : Val := env_YOUTUBE_API_KEY env.

Lemma resolve_found_run (id : ResourceId) (snippet : Snippet) :
  resolves_to env d id snippet →
  ResolveChannel.handler env (Some d) st
  = mkRun (Returns tt)
      (<[job_key jobID :=
           <["status" := VString "resolving channel"]>
             (read_record st jobID)]> st)
      [Log "info" "Resolving yt channel";
       StateGet (job_key jobID);
       StateSet (job_key jobID)
         (<["status" := VString "resolving channel"]> (read_record st jobID));
       Fetch (ResolveChannel.searchURL
                (VString (js_substring1 (to_string (prop d "channel")))) key);
       Emit (mkEvent "yt.channel.resolved"
               {[ "jobID" := jobID;
                  "channelID" := leaf_val (id_channelId id);
                  "channelName" := leaf_val (snippet_title snippet);
                  "email" := email ]})].
Proof.
  intros (Hkey & h & rest & Hch & Hfetch & Hid).
  js_run. rewrite Hkey, Hch. js_run.
  cbn [js_startsWith Ascii.eqb Bool.eqb].
  unfold ResolveChannel.handle_of. cbn [to_string js_substring1].
  rewrite Hfetch. cbn [items].
  cbv beta iota zeta delta [ResolveChannel.first_hit obind read item_id item_snippet].
  rewrite Hid. reflexivity.
Qed.

Lemma resolve_not_found_run (h : string) (primary : SearchData)
    (fallback : Member SearchData) :
  truthy key = true →
  prop d "channel" = VString (String "@" h) →
  env_fetch env (ResolveChannel.searchURL (VString h) key)
  = FetchOk (Has primary) →
  items primary = None ∨ items primary = Some [] →
  env_fetch env (ResolveChannel.searchURL (VString (String "@" h)) key)
  = FetchOk fallback →
  ResolveChannel.handler env (Some d) st
  = mkRun (Returns tt)
      (<[job_key jobID :=
           <["error" := VString "Channel not found"]>
             (<["status" := VString "failed"]> (read_record st jobID))]>
         (<[job_key jobID :=
              <["status" := VString "resolving channel"]>
                (read_record st jobID)]> st))
      [Log "info" "Resolving yt channel";
       StateGet (job_key jobID);
       StateSet (job_key jobID)
         (<["status" := VString "resolving channel"]> (read_record st jobID));
       Fetch (ResolveChannel.searchURL (VString h) key);
       Fetch (ResolveChannel.searchURL (VString (String "@" h)) key);
       Log "error" "channel not found";
       StateSet (job_key jobID)
         (<["error" := VString "Channel not found"]>
            (<["status" := VString "failed"]> (read_record st jobID)));
       Emit (mkEvent "yt.channel.error"
               {[ "jobID" := jobID; "email" := email ]})].
Proof.
  intros Hkey Hch Hprimary Hnone Hfallback.
  js_run. fold key. rewrite Hkey, Hch. js_run.
  cbn [js_startsWith Ascii.eqb Bool.eqb].
  unfold ResolveChannel.handle_of. cbn [to_string js_substring1].
  rewrite Hprimary.
  destruct Hnone as [-> | ->]; rewrite Hfallback; reflexivity.
Qed.

(** C1, as the code has it. When the resolution succeeds the step emits
    one [yt.channel.resolved] event carrying
    [{jobID, channelID, channelName, email}]; its only write to the job
    store is the record it read with [status = "resolving channel"], so the
    stored record gets no [channelID] and no [channelName]: those fields
    stay as they were read. *)
Theorem resolve_success_emits_only (id : ResourceId) (snippet : Snippet) :
  resolves_to env d id snippet →
  let r := ResolveChannel.handler env (Some d) st in
  let stored := <["status" := VString "resolving channel"]> (read_record st jobID) in
  emitted (ops r)
  = [mkEvent "yt.channel.resolved"
       {[ "jobID" := jobID;
          "channelID" := leaf_val (id_channelId id);
          "channelName" := leaf_val (snippet_title snippet);
          "email" := email ]}]
  ∧ writes (ops r) = [(job_key jobID, stored)]
  ∧ final r !! job_key jobID = Some stored
  ∧ stored !! "channelID" = read_record st jobID !! "channelID"
  ∧ stored !! "channelName" = read_record st jobID !! "channelName".
Proof.
  intros Hres. cbv zeta. rewrite (resolve_found_run id snippet Hres).
  cbn [emitted writes omap list_omap ops final].
  split; [done|]. split; [done|].
  split; [apply lookup_insert_eq|].
  split; apply lookup_insert_ne; discriminate.
Qed.

(** C6. For a handle whose primary search returns no entry, whatever the
    fallback search on the raw text returns, the job ends with
    [status = "failed"] and [error = "Channel not found"], and the step
    emits one [yt.channel.error] event whose payload is exactly
    [{jobID, email}], without an [error] field. The fallback result is not
    applied: no [yt.channel.resolved] event is emitted and the stored
    [channelID] and [channelName] are those of the record read. *)
Theorem resolve_handle_not_found (h : string) (primary : SearchData)
    (fallback : Member SearchData) :
  truthy key = true →
  prop d "channel" = VString (String "@" h) →
  env_fetch env (ResolveChannel.searchURL (VString h) key)
  = FetchOk (Has primary) →
  items primary = None ∨ items primary = Some [] →
  env_fetch env (ResolveChannel.searchURL (VString (String "@" h)) key)
  = FetchOk fallback →
  let r := ResolveChannel.handler env (Some d) st in
  let stored :=
    <["error" := VString "Channel not found"]>
      (<["status" := VString "failed"]> (read_record st jobID)) in
  final r = <[job_key jobID := stored]> st
  ∧ stored !! "status" = Some (VString "failed")
  ∧ stored !! "error" = Some (VString "Channel not found")
  ∧ stored !! "channelID" = read_record st jobID !! "channelID"
  ∧ stored !! "channelName" = read_record st jobID !! "channelName"
  ∧ emitted (ops r)
    = [mkEvent "yt.channel.error" {[ "jobID" := jobID; "email" := email ]}]
  ∧ ({[ "jobID" := jobID; "email" := email ]} : Obj) !! "error" = None.
Proof.
  intros Hkey Hch Hprimary Hnone Hfallback. cbv zeta.
  rewrite (resolve_not_found_run h primary fallback) by assumption.
  cbn [emitted writes omap list_omap ops final].
  split; [apply insert_insert_eq|].
  split; [by rewrite lookup_insert_ne, lookup_insert_eq|].
  split; [apply lookup_insert_eq|].
  split; [by rewrite !lookup_insert_ne|].
  split; [by rewrite !lookup_insert_ne|].
  split; [done|].
  by rewrite lookup_insert_ne, lookup_singleton_ne.
Qed.

End Resolution.

Lemma first_hit_returns (first : Member SearchResult) (c n : Val) :
  ResolveChannel.first_hit first = Returns (c, n) →
  ∃ id snippet,
    first = Has (mkSearchResult (Has id) (Has snippet))
    ∧ c = leaf_val (id_channelId id) ∧ n = leaf_val (snippet_title snippet).
Proof.
  destruct first as [| |[[| |id] [| |snippet]]]; cbn; intros [=]; eauto.
Qed.

Lemma starts_with_at (s : string) :
  js_startsWith s "@" = true → ∃ h, s = String "@" h.
Proof.
  destruct s as [|c s]; [discriminate|]. cbn [js_startsWith].
  intros ->%Ascii.eqb_eq. eauto.
Qed.

Section ResolutionSucceeds.

Variables (env : Env) (d : Obj) (st : gmap string Obj).

(** The resolution succeeds in that case only: a [yt.channel.resolved]
    event is emitted only for a handle whose search returns a first entry
    with [id], a usable channel id and [snippet], and it carries the
    channel id and the title of that entry. *)
Lemma resolved_only_if (e : Event) :
  e ∈ emitted (ops (ResolveChannel.handler env (Some d) st)) →
  topic e = "yt.channel.resolved" →
  ∃ id snippet,
    resolves_to env d id snippet
    ∧ data e
      = {[ "jobID" := prop d "jobID";
           "channelID" := leaf_val (id_channelId id);
           "channelName" := leaf_val (snippet_title snippet);
           "email" := prop d "email" ]}.
Proof.
  js_run.
  destruct (truthy (env_YOUTUBE_API_KEY env)) eqn:Hkey; js_run;
    [|destruct (truthy (prop d "jobID")), (truthy (prop d "email"));
      cbn [emitted omap list_omap]; intros Hin; each_in Hin; subst e;
      discriminate].
  destruct (prop d "channel") as [| |s|vs] eqn:Hch; js_run.
  1,2,4: destruct (truthy (prop d "jobID")), (truthy (prop d "email"));
      cbn [emitted omap list_omap]; intros Hin; each_in Hin; subst e;
      discriminate.
  destruct (js_startsWith s "@") eqn:Hat; js_run;
    [|cbn [emitted omap list_omap]; intros Hin; each_in Hin; subst e;
      discriminate].
  apply starts_with_at in Hat as [h ->].
  unfold ResolveChannel.handle_of. cbn [to_string js_substring1].
  repeat (js_step; js_run; cbn [items]).
  all: cbn [emitted omap list_omap]; intros Hin; each_in Hin; subst e;
    try discriminate.
  intros _.
  match goal with
  | Hhit : ResolveChannel.first_hit _ = Returns _ |- _ =>
      apply first_hit_returns in Hhit as (id & snippet & -> & -> & ->)
  end.
  exists id, snippet. split; [|reflexivity].
  split; [exact Hkey|]. exists h. eexists. split; [exact Hch|].
  split; [eassumption|assumption].
Qed.

End ResolutionSucceeds.

Lemma sample_resolves :
  resolves_to sample_env sample_submit_event acme_id acme_snippet.
Proof.
  split; [reflexivity|]. exists "acme", []. split; [reflexivity|].
  split; reflexivity.
Qed.

(** C1 as stated fails here: the handle [@acme] resolves to [UC123] and the
    event says so, but the stored record has neither [channelID] nor
    [channelName]. *)
Lemma resolved_record_lacks_channel :
  let r := ResolveChannel.handler sample_env (Some sample_submit_event)
             sample_store in
  emitted (ops r) = [mkEvent "yt.channel.resolved" sample_resolved_event]
  ∧ final r !! "job: j1"
    = Some (<["status" := VString "resolving channel"]> sample_job)
  ∧ (<["status" := VString "resolving channel"]> sample_job) !! "channelID" = None
  ∧ (<["status" := VString "resolving channel"]> sample_job) !! "channelName" = None.
Proof. cbv zeta. split; [|split; [|split]]; reflexivity. Qed.

Lemma resolve_success_emits_only_witness :
  let r := ResolveChannel.handler sample_env (Some sample_submit_event)
             sample_store in
  resolves_to sample_env sample_submit_event acme_id acme_snippet
  ∧ emitted (ops r)
    = [mkEvent "yt.channel.resolved"
         {[ "jobID" := VString "j1";
            "channelID" := VString "UC123";
            "channelName" := VString "Acme";
            "email" := VString "ana@example.org" ]}].
Proof.
  split; [exact sample_resolves|].
  exact (proj1 (resolve_success_emits_only sample_env sample_submit_event
                  sample_store acme_id acme_snippet sample_resolves)).
Defined.

Lemma resolve_handle_not_found_witness :
  let r := ResolveChannel.handler sample_env (Some ghost_submit_event)
             sample_store in
  emitted (ops r)
  = [mkEvent "yt.channel.error"
       {[ "jobID" := VString "j1"; "email" := VString "ana@example.org" ]}]
  ∧ final r
    = <["job: j1" :=
          <["error" := VString "Channel not found"]>
            (<["status" := VString "failed"]> sample_job)]> sample_store.
Proof.
  destruct (resolve_handle_not_found sample_env ghost_submit_event sample_store
              "ghost" (mkSearchData (Some []))
              (Has (mkSearchData (Some [acme_hit]))))
    as (Hfinal & _ & _ & _ & _ & Hemit & _).
  - reflexivity.
  - reflexivity.
  - reflexivity.
  - right; reflexivity.
  - reflexivity.
  - split; [exact Hemit|exact Hfinal].
Defined.

(** ** Video listing *)

Section Listing.

Variables (env : Env) (d : Obj) (st : gmap string Obj).

Let jobID : Val := prop d "jobID".
Let email : Val := prop d "email".
Let channelID : Val := prop d "channelID".
Let key : Val := env_YOUTUBE_API_KEY env.

Lemma listing_no_items_run (ytData : SearchData) :
  truthy key = true →
  env_fetch env (FetchVideos.searchURL channelID key) = FetchOk (Has ytData) →
  FetchVideos.no_items ytData = true →
  FetchVideos.handler env (Some d) st
  = mkRun (Returns tt)
      (<[job_key jobID :=
           <["error" := VString "no videos found"]>
             (<["status" := VString "failed"]> (read_record st jobID))]>
         (<[job_key jobID :=
              <["status" := VString "fetching videos"]>
                (read_record st jobID)]> st))
      [Log "info" "Fetching videos from yt channel";
       StateGet (job_key jobID);
       StateSet (job_key jobID)
         (<["status" := VString "fetching videos"]> (read_record st jobID));
       Fetch (FetchVideos.searchURL channelID key);
       Log "warn" "No videos found for channel";
       StateSet (job_key jobID)
         (<["error" := VString "no videos found"]>
            (<["status" := VString "failed"]> (read_record st jobID)));
       Emit (mkEvent "yt.videos.error"
               {[ "jobID" := jobID;
                  "email" := email;
                  "error" := VString "No videos found for channel" ]})].
Proof.
  intros Hkey Hfetch Hnone. js_run. fold key channelID.
  rewrite Hkey, Hfetch.
  destruct ytData as [[[|? ?]|]]; try discriminate Hnone; reflexivity.
Qed.

Lemma listing_fetched_run (first : Member SearchResult)
    (rest : list (Member SearchResult)) (videos : list Video) :
  truthy key = true →
  env_fetch env (FetchVideos.searchURL channelID key)
  = FetchOk (Has (mkSearchData (Some (first :: rest)))) →
  map_items FetchVideos.to_video (first :: rest) = Returns videos →
  FetchVideos.handler env (Some d) st
  = mkRun (Returns tt)
      (<[job_key jobID :=
           <["videos" := VVideos videos]>
             (<["status" := VString "videos fetched"]> (read_record st jobID))]>
         (<[job_key jobID :=
              <["status" := VString "fetching videos"]>
                (read_record st jobID)]> st))
      [Log "info" "Fetching videos from yt channel";
       StateGet (job_key jobID);
       StateSet (job_key jobID)
         (<["status" := VString "fetching videos"]> (read_record st jobID));
       Fetch (FetchVideos.searchURL channelID key);
       Log "info" "Fetched videos";
       StateSet (job_key jobID)
         (<["videos" := VVideos videos]>
            (<["status" := VString "videos fetched"]> (read_record st jobID)));
       Emit (mkEvent "yt.videos.fetched"
               {[ "jobID" := jobID;
                  "videos" := VVideos videos;
                  "channelName" := prop d "channelName";
                  "email" := email ]})].
Proof.
  intros Hkey Hfetch Hmap. js_run. fold key channelID.
  rewrite Hkey, Hfetch. js_run. cbn [items]. rewrite Hmap. reflexivity.
Qed.

(** C7, as the code has it. When the listing call returns no item the job
    record ends with [status = "failed"] and [error = "no videos found"],
    and the step emits one [yt.videos.error] event carrying
    [{jobID, email, error}] with [error = "No videos found for channel"]. *)
Theorem listing_no_items_fails (ytData : SearchData) :
  truthy key = true →
  env_fetch env (FetchVideos.searchURL channelID key) = FetchOk (Has ytData) →
  FetchVideos.no_items ytData = true →
  let r := FetchVideos.handler env (Some d) st in
  let stored :=
    <["error" := VString "no videos found"]>
      (<["status" := VString "failed"]> (read_record st jobID)) in
  final r = <[job_key jobID := stored]> st
  ∧ stored !! "status" = Some (VString "failed")
  ∧ stored !! "error" = Some (VString "no videos found")
  ∧ emitted (ops r)
    = [mkEvent "yt.videos.error"
         {[ "jobID" := jobID;
            "email" := email;
            "error" := VString "No videos found for channel" ]}].
Proof.
  intros Hkey Hfetch Hnone. cbv zeta.
  rewrite (listing_no_items_run ytData) by assumption.
  cbn [emitted writes omap list_omap ops final].
  split; [apply insert_insert_eq|].
  split; [by rewrite lookup_insert_ne, lookup_insert_eq|].
  split; [apply lookup_insert_eq|done].
Qed.

End Listing.

(** C7 as stated fails here: the sample channel [UC000] has no upload, and
    the stored error is ["no videos found"], not the event's
    ["No videos found for channel"]. *)
Lemma no_videos_stored_error :
  let r := FetchVideos.handler sample_env (Some empty_resolved_event)
             sample_store in
  let stored :=
    <["error" := VString "no videos found"]>
      (<["status" := VString "failed"]> sample_job) in
  final r !! "job: j1" = Some stored
  ∧ stored !! "status" = Some (VString "failed")
  ∧ stored !! "error" = Some (VString "no videos found")
  ∧ stored !! "error" ≠ Some (VString "No videos found for channel").
Proof. cbv zeta. split; [|split; [|split]]; try reflexivity. discriminate. Qed.

Lemma listing_no_items_fails_witness :
  let r := FetchVideos.handler sample_env (Some empty_resolved_event)
             sample_store in
  final r
  = <["job: j1" :=
        <["error" := VString "no videos found"]>
          (<["status" := VString "failed"]> sample_job)]> sample_store
  ∧ emitted (ops r)
    = [mkEvent "yt.videos.error"
         {[ "jobID" := VString "j1";
            "email" := VString "ana@example.org";
            "error" := VString "No videos found for channel" ]}].
Proof.
  destruct (listing_no_items_fails sample_env empty_resolved_event sample_store
              (mkSearchData (Some [])))
    as (Hfinal & _ & _ & Hemit).
  - reflexivity.
  - reflexivity.
  - reflexivity.
  - split; [exact Hfinal|exact Hemit].
Defined.

(** ** The listing request and what the service returns for it *)

Section Requests.









(** A complete search resource gives the Item record of its video. *)
Lemma to_video_entry (u : Upload) :
  FetchVideos.to_video (entry_of u) = Returns (video_of u).
Proof. reflexivity. Qed.

Lemma map_items_entries (us : list Upload) :
  map_items FetchVideos.to_video (map entry_of us) = Returns (map video_of us).
Proof.
  induction us as [|u us IH]; [reflexivity|].
  cbn [map map_items]. rewrite to_video_entry, IH. reflexivity.
Qed.

Lemma map_items_length {A B} (f : A → Outcome B) (l : list A) (l' : list B) :
  map_items f l = Returns l' → length l' = length l.
Proof.
  revert l'. induction l as [|x l IH]; intros l' H; cbn [map_items] in H.
  - by injection H as <-.
  - destruct (f x) as [y|m]; [|discriminate H]. cbn [obind] in H.
    destruct (map_items f l) as [ys|m]; [|discriminate H]. cbn [obind] in H.
    injection H as <-. cbn [length]. by rewrite (IH ys).
Qed.



End Requests.

Section Page.

Variables (env : Env) (d : Obj) (st : gmap string Obj).

Let jobID : Val := prop d "jobID".
Let email : Val := prop d "email".
Let channelID : Val := prop d "channelID".
Let key : Val := env_YOUTUBE_API_KEY env.


End Page.



(** ** Failures without a job identity *)

Lemma try_catch_throws {A} (body : M A) (h : string → M A)
    (s : gmap string Obj) (msg : string) :
  outcome (body s) = Throws msg →
  try_catch body h s
  = mkRun (outcome (h msg (final (body s)))) (final (h msg (final (body s))))
      (ops (body s) ++ ops (h msg (final (body s)))).
Proof.
  unfold try_catch. destruct (body s) as [[a|m] s1 l1]; cbn; [discriminate|].
  intros [= ->]. by destruct (h msg s1).
Qed.

Section FailurePath.

Variables (env : Env) (d : Obj) (st : gmap string Obj).

Let jobID : Val := prop d "jobID".
Let email : Val := prop d "email".
Let key : Val := env_YOUTUBE_API_KEY env.

Lemma resolve_try_throws (msg : string) :
  let t := ResolveChannel.handler_try env d jobID email st in
  let started :=
    <["status" := VString "resolving channel"]> (read_record st jobID) in
  outcome t = Throws msg →
  emitted (ops t) = []
  ∧ (truthy key = false ∧ final t = st ∧ writes (ops t) = []
     ∨ truthy key = true
       ∧ final t = <[job_key jobID := started]> st
       ∧ writes (ops t) = [(job_key jobID, started)]).
Proof.
  cbv zeta. js_cases; intros Hthrow; try discriminate Hthrow.
  all: cbn [emitted writes omap list_omap].
  all: split; [reflexivity|]; fold key.
  all: first [ left; split; [assumption|split; reflexivity]
             | right; split; [assumption|split; reflexivity] ].
Qed.

Lemma listing_try_throws (msg : string) :
  let t := FetchVideos.handler_try env d jobID email st in
  let started :=
    <["status" := VString "fetching videos"]> (read_record st jobID) in
  outcome t = Throws msg →
  emitted (ops t) = []
  ∧ (truthy key = false ∧ final t = st ∧ writes (ops t) = []
     ∨ truthy key = true
       ∧ final t = <[job_key jobID := started]> st
       ∧ writes (ops t) = [(job_key jobID, started)]).
Proof.
  cbv zeta. js_cases; intros Hthrow; try discriminate Hthrow.
  all: cbn [emitted writes omap list_omap].
  all: split; [reflexivity|]; fold key.
  all: first [ left; split; [assumption|split; reflexivity]
             | right; split; [assumption|split; reflexivity] ].
Qed.

Lemma resolve_catch_drops (msg : string) (s : gmap string Obj) :
  truthy jobID = false ∨ truthy email = false →
  ResolveChannel.handler_catch jobID email msg s
  = mkRun (Returns tt) s
      [Log "error" "Error resolving channel";
       Log "error" "JobID or Email is required"].
Proof.
  intros Hid. js_run.
  destruct (truthy jobID) eqn:Hj, (truthy email) eqn:He; try reflexivity.
  destruct Hid; discriminate.
Qed.

Lemma listing_catch_drops (msg : string) (s : gmap string Obj) :
  truthy jobID = false ∨ truthy email = false →
  FetchVideos.handler_catch jobID email msg s
  = mkRun (Returns tt) s
      [Log "error" "Error fetching videos";
       Log "error" "JobID or Email is required"].
Proof.
  intros Hid. js_run.
  destruct (truthy jobID) eqn:Hj, (truthy email) eqn:He; try reflexivity.
  destruct Hid; discriminate.
Qed.

(** C9, as the code has it. When a failure is raised in the resolution or
    the listing step and the payload gave no usable [jobID] or no usable
    [email], the step emits no event and, from the failure on, only logs.
    What the step wrote before the failure stays: nothing when the failure
    is the missing credential, otherwise the one status write
    (["resolving channel"], resp. ["fetching videos"]) under the key made
    from the extracted [jobID]. *)
Theorem failure_without_identity (msg : string) :
  truthy jobID = false ∨ truthy email = false →
  (outcome (ResolveChannel.handler_try env d jobID email st) = Throws msg →
   dropped_silently key (job_key jobID)
     (<["status" := VString "resolving channel"]> (read_record st jobID)) st
     (ResolveChannel.handler_try env d jobID email st)
     (ResolveChannel.handler env (Some d) st))
  ∧ (outcome (FetchVideos.handler_try env d jobID email st) = Throws msg →
     dropped_silently key (job_key jobID)
       (<["status" := VString "fetching videos"]> (read_record st jobID)) st
       (FetchVideos.handler_try env d jobID email st)
       (FetchVideos.handler env (Some d) st)).
Proof.
  intros Hid. unfold dropped_silently, only_logs_after. split; intros Hthrow.
  - destruct (resolve_try_throws msg Hthrow) as [Hemit Hwrites].
    change (ResolveChannel.handler env (Some d) st)
      with (try_catch (ResolveChannel.handler_try env d jobID email)
              (ResolveChannel.handler_catch jobID email) st).
    rewrite (try_catch_throws _ _ _ msg Hthrow).
    rewrite (resolve_catch_drops msg _ Hid). cbn [outcome final ops].
    unfold emitted, writes in *. rewrite !omap_app, Hemit.
    cbn [omap list_omap app].
    split; [split; [reflexivity|eexists; split; reflexivity]|].
    split; [reflexivity|]. rewrite app_nil_r. exact Hwrites.
  - destruct (listing_try_throws msg Hthrow) as [Hemit Hwrites].
    change (FetchVideos.handler env (Some d) st)
      with (try_catch (FetchVideos.handler_try env d jobID email)
              (FetchVideos.handler_catch jobID email) st).
    rewrite (try_catch_throws _ _ _ msg Hthrow).
    rewrite (listing_catch_drops msg _ Hid). cbn [outcome final ops].
    unfold emitted, writes in *. rewrite !omap_app, Hemit.
    cbn [omap list_omap app].
    split; [split; [reflexivity|eexists; split; reflexivity]|].
    split; [reflexivity|]. rewrite app_nil_r. exact Hwrites.
Qed.

End FailurePath.

(** C9 as stated fails here: the payload has a [jobID] but no [email] and
    the search cannot be reached; a failure is raised and dropped, yet the
    job's record has been rewritten with [status = "resolving channel"]. *)
Lemma drop_after_status_write :
  let t := ResolveChannel.handler_try sample_env lost_submit_event
             (prop lost_submit_event "jobID") (prop lost_submit_event "email")
             sample_store in
  let r := ResolveChannel.handler sample_env (Some lost_submit_event)
             sample_store in
  outcome t = Throws "fetch failed"
  ∧ truthy (prop lost_submit_event "email") = false
  ∧ emitted (ops r) = []
  ∧ writes (ops r)
    = [("job: j1", <["status" := VString "resolving channel"]> sample_job)]
  ∧ final r !! "job: j1"
    = Some (<["status" := VString "resolving channel"]> sample_job)
  ∧ final r !! "job: j1" ≠ sample_store !! "job: j1".
Proof.
  cbv zeta. split; [|split; [|split; [|split; [|split]]]]; try reflexivity.
  discriminate.
Qed.

(** With an empty payload the status write goes under ["job: undefined"],
    before [channel.startsWith] fails. *)
Example empty_payload_writes_undefined_key :
  let r := ResolveChannel.handler sample_env (Some ∅) ∅ in
  outcome r = Returns tt
  ∧ emitted (ops r) = []
  ∧ writes (ops r)
    = [("job: undefined", {[ "status" := VString "resolving channel" ]})].
Proof. cbv zeta. split; [|split]; reflexivity. Qed.

Lemma failure_without_identity_witness :
  dropped_silently sample_key "job: j1"
    (<["status" := VString "resolving channel"]> sample_job) sample_store
    (ResolveChannel.handler_try sample_env lost_submit_event
       (prop lost_submit_event "jobID") (prop lost_submit_event "email")
       sample_store)
    (ResolveChannel.handler sample_env (Some lost_submit_event) sample_store).
Proof.
  apply (proj1 (failure_without_identity sample_env lost_submit_event
                  sample_store "fetch failed" (or_intror eq_refl))).
  reflexivity.
Defined.

(** ** What the steps' writes keep *)

Section Frame.

Variables (env : Env) (d : Obj) (st : gmap string Obj).

Let jobID : Val := prop d "jobID".

Lemma resolve_writes_frame (k : string) (o : Obj) (f : string) :
  f ≠ "status" → f ≠ "error" → f ≠ "videos" →
  (k, o) ∈ writes (ops (ResolveChannel.handler env (Some d) st)) →
  k = job_key jobID ∧ o !! f = read_record st jobID !! f.
Proof. intros Hs He Hv. js_cases; intros Hin; frame_leaf Hin. Qed.

Lemma listing_writes_frame (k : string) (o : Obj) (f : string) :
  f ≠ "status" → f ≠ "error" → f ≠ "videos" →
  (k, o) ∈ writes (ops (FetchVideos.handler env (Some d) st)) →
  k = job_key jobID ∧ o !! f = read_record st jobID !! f.
Proof. intros Hs He Hv. js_cases; intros Hin; frame_leaf Hin. Qed.

(** C10. Every record the resolution step or the listing step writes is
    written under the job's key and agrees with the record the step read
    at its start on every field other than [status], [error] and [videos]:
    [jobID], [channel], [email], [createdAt] and any other field are
    carried over unchanged, and none is added. *)
Theorem stage_writes_keep_fields (k : string) (o : Obj) (f : string) :
  f ≠ "status" → f ≠ "error" → f ≠ "videos" →
  (k, o) ∈ writes (ops (ResolveChannel.handler env (Some d) st))
  ∨ (k, o) ∈ writes (ops (FetchVideos.handler env (Some d) st)) →
  k = job_key jobID ∧ o !! f = read_record st jobID !! f.
Proof.
  intros Hs He Hv [Hin|Hin];
    eauto using resolve_writes_frame, listing_writes_frame.
Qed.

End Frame.

Lemma stage_writes_keep_fields_witness :
  "job: j1" = job_key (prop sample_submit_event "jobID")
  ∧ (<["status" := VString "resolving channel"]> sample_job) !! "email"
    = read_record sample_store (prop sample_submit_event "jobID") !! "email".
Proof.
  apply (stage_writes_keep_fields sample_env sample_submit_event sample_store
           "job: j1" (<["status" := VString "resolving channel"]> sample_job)
           "email").
  - discriminate.
  - discriminate.
  - discriminate.
  - left. apply list_elem_of_here.
Defined.

(** ** The statuses a job goes through *)

Section Summaries.

Variables (env : Env) (st : gmap string Obj).

Lemma resolve_summary (d : Obj) :
  let r := ResolveChannel.handler env (Some d) st in
  (∃ e, emitted (ops r) = [e] ∧ topic e = "yt.channel.resolved"
        ∧ written_statuses (ops r) = [Some (VString "resolving channel")])
  ∨ ((emitted (ops r) = []
      ∨ ∃ e, emitted (ops r) = [e] ∧ topic e = "yt.channel.error")
     ∧ (written_statuses (ops r) = []
        ∨ written_statuses (ops r) = [Some (VString "failed")]
        ∨ written_statuses (ops r) = [Some (VString "resolving channel")]
        ∨ written_statuses (ops r)
          = [Some (VString "resolving channel"); Some (VString "failed")])).
Proof.
  cbv zeta. remember (ResolveChannel.handler env (Some d) st) as r eqn:E.
  revert E. js_cases; intros ->; cbn [ops]; status_leaf.
  all: first
    [ left; eexists; split; [reflexivity|split; reflexivity]
    | right; split;
      [ first [left; reflexivity | right; eexists; split; reflexivity]
      | first [ left; reflexivity
              | right; left; reflexivity
              | right; right; left; reflexivity
              | right; right; right; reflexivity ] ] ].
Qed.

Lemma listing_summary (d : Obj) :
  let r := FetchVideos.handler env (Some d) st in
  written_statuses (ops r) = []
  ∨ written_statuses (ops r) = [Some (VString "failed")]
  ∨ written_statuses (ops r) = [Some (VString "fetching videos")]
  ∨ written_statuses (ops r)
    = [Some (VString "fetching videos"); Some (VString "failed")]
  ∨ written_statuses (ops r)
    = [Some (VString "fetching videos"); Some (VString "videos fetched")].
Proof.
  cbv zeta. remember (FetchVideos.handler env (Some d) st) as r eqn:E.
  revert E. js_cases; intros ->; cbn [ops]; status_leaf.
  all: first [ left; reflexivity
             | right; left; reflexivity
             | right; right; left; reflexivity
             | right; right; right; left; reflexivity
             | right; right; right; right; reflexivity ].
Qed.

End Summaries.

Lemma written_statuses_app (a b : list Op) :
  written_statuses (a ++ b) = written_statuses a ++ written_statuses b.
Proof. unfold written_statuses, writes. by rewrite omap_app, List.map_app. Qed.

Lemma deliver_all_one (env : Env) (e : Event) (s : gmap string Obj) :
  ops (deliver_all env [e] s) = ops (deliver env e s)
  ∧ final (deliver_all env [e] s) = final (deliver env e s).
Proof.
  cbn [deliver_all]. unfold bind, ret.
  destruct (deliver env e s) as [[[]|m] s1 l1]; cbn [ops final];
    rewrite ?app_nil_r; done.
Qed.

Section Pipeline.

Variables (env : Env) (req : Request) (st : gmap string Obj).

Lemma submit_summary : submit_shape (Submit.handler env req st).
Proof.
  unfold submit_shape.
  remember (Submit.handler env req st) as r eqn:E. revert E.
  destruct req as [[b|]]; js_run;
    [destruct (truthy (prop b "channel")), (truthy (prop b "email")),
       (Regex.test Submit.emailRegex (to_string (prop b "email")))|];
    intros ->; cbn [ops]; status_leaf;
    first [ left; split; reflexivity
          | right; eexists; split; [reflexivity|split; reflexivity] ].
Qed.

Lemma submit_alt_summary : submit_shape (SubmitAlt.handler env req st).
Proof.
  unfold submit_shape.
  remember (SubmitAlt.handler env req st) as r eqn:E. revert E.
  destruct req as [[b|]]; js_run;
    [destruct (truthy (prop b "channel")), (truthy (prop b "email")),
       (Regex.test SubmitAlt.eamilRegex (to_string (prop b "email")))|];
    intros ->; cbn [ops]; status_leaf;
    first [ left; split; reflexivity
          | right; eexists; split; [reflexivity|split; reflexivity] ].
Qed.

Lemma pipeline_monotone (submit : Env → Request → M Response) :
  submit_shape (submit env req st) →
  statuses_monotone (ops (pipeline submit env req st)) = true.
Proof.
  intros Hshape. unfold pipeline. cbn [ops].
  unfold statuses_monotone. rewrite !written_statuses_app.
  destruct Hshape as [[He Hw]|(e & He & Ht & Hw)]; rewrite He, Hw.
  - reflexivity.
  - destruct (deliver_all_one env e (final (submit env req st))) as [-> ->].
    unfold deliver. rewrite Ht. cbn [String.eqb Ascii.eqb Bool.eqb].
    destruct (resolve_summary env (final (submit env req st)) (data e))
      as [(e2 & -> & Ht2 & ->)|[Hemit Hws]].
    + match goal with |- context [deliver_all env [e2] ?s] =>
        destruct (deliver_all_one env e2 s) as [-> _] end.
      unfold deliver. rewrite Ht2. cbn [String.eqb Ascii.eqb Bool.eqb].
      match goal with |- context [FetchVideos.handler env ?x ?s] =>
        destruct (listing_summary env s (data e2))
          as [-> | [-> | [-> | [-> | ->]]]] end; reflexivity.
    + assert (Hnone : written_statuses
                (ops (deliver_all env
                   (emitted (ops (ResolveChannel.handler env (Some (data e))
                                    (final (submit env req st)))))
                   (final (ResolveChannel.handler env (Some (data e))
                                    (final (submit env req st)))))) = []).
      { destruct Hemit as [-> | (e2 & -> & Ht2)]; [reflexivity|].
        match goal with |- context [deliver_all env [e2] ?s] =>
          destruct (deliver_all_one env e2 s) as [-> _] end.
        unfold deliver. rewrite Ht2. reflexivity. }
      rewrite Hnone.
      destruct Hws as [-> | [-> | [-> | ->]]]; reflexivity.
Qed.

Lemma statuses_known_app (a b : list Op) :
  statuses_known (a ++ b) = statuses_known a && statuses_known b.
Proof. unfold statuses_known. by rewrite written_statuses_app, forallb_app. Qed.

Lemma deliver_known (e : Event) (s : gmap string Obj) :
  statuses_known (ops (deliver env e s)) = true.
Proof.
  unfold deliver, statuses_known.
  destruct (String.eqb (topic e) "yt.submit").
  - destruct (resolve_summary env s (data e))
      as [(e2 & _ & _ & ->)|[_ [-> | [-> | [-> | ->]]]]]; reflexivity.
  - destruct (String.eqb (topic e) "yt.channel.resolved"); [|reflexivity].
    destruct (listing_summary env s (data e))
      as [-> | [-> | [-> | [-> | ->]]]]; reflexivity.
Qed.

Lemma deliver_all_known (es : list Event) :
  ∀ s, statuses_known (ops (deliver_all env es s)) = true.
Proof.
  induction es as [|e es IH]; intros s; [reflexivity|].
  cbn [deliver_all]. unfold bind.
  pose proof (deliver_known e s) as He.
  destruct (deliver env e s) as [[[]|m] s1 l1]; cbn [ops] in He |- *;
    [|exact He].
  pose proof (IH s1) as Hes.
  destruct (deliver_all env es s1) as [o s2 l2]. cbn [ops] in Hes |- *.
  by rewrite statuses_known_app, He, Hes.
Qed.

Lemma submit_known :
  statuses_known (ops (Submit.handler env req st)) = true
  ∧ statuses_known (ops (SubmitAlt.handler env req st)) = true.
Proof.
  unfold statuses_known. split.
  - destruct submit_summary as [[_ ->]|(e & _ & _ & ->)]; reflexivity.
  - destruct submit_alt_summary as [[_ ->]|(e & _ & _ & ->)]; reflexivity.
Qed.

(** C3, as the code has it. Every record the three steps write holds, in
    [status], one of the five statuses (stored as ["queued"],
    ["resolving channel"], ["fetching videos"], ["videos fetched"],
    ["failed"]): this holds for any request, any events delivered in any
    number and order, any store and any behaviour of the remote service.
    Along the writes of one submission followed through the three steps,
    each emitted event being delivered once to its subscriber, the status
    never goes back in the order queued, resolving, fetching, fetched,
    failed, with either document of the submit step. No step looks at the
    status it reads, so the order rests on that single delivery. *)
Theorem pipeline_statuses_monotone :
  (statuses_known (ops (Submit.handler env req st)) = true
   ∧ statuses_known (ops (SubmitAlt.handler env req st)) = true
   ∧ ∀ es s, statuses_known (ops (deliver_all env es s)) = true)
  ∧ statuses_monotone (ops (pipeline Submit.handler env req st)) = true
  ∧ statuses_monotone (ops (pipeline SubmitAlt.handler env req st)) = true.
Proof.
  split.
  - destruct submit_known as [H1 H2]. split; [exact H1|]. split; [exact H2|].
    intros es s. apply deliver_all_known.
  - split; apply pipeline_monotone;
      [apply submit_summary|apply submit_alt_summary].
Qed.

End Pipeline.

(** C3 as stated fails here. A valid submission goes through the three
    steps and its job reaches ["videos fetched"]; the [yt.submit] event is
    then delivered a second time, which the bus may do, and the resolution
    step writes ["resolving channel"] over the finished job. *)
Lemma redelivery_moves_status_back :
  let r1 := SubmitAlt.handler sample_env (mkRequest (Some sample_body)) ∅ in
  let r2 := deliver_all sample_env (emitted (ops r1)) (final r1) in
  let r3 := deliver_all sample_env (emitted (ops r2)) (final r2) in
  let r4 := deliver_all sample_env (emitted (ops r1)) (final r3) in
  let trace := ops r1 ++ ops r2 ++ ops r3 ++ ops r4 in
  map fst (writes trace)
  = ["job: job_1700000000000_4fzyo82"; "job: job_1700000000000_4fzyo82";
     "job: job_1700000000000_4fzyo82"; "job: job_1700000000000_4fzyo82";
     "job: job_1700000000000_4fzyo82"]
  ∧ written_statuses trace
    = [Some (VString "queued"); Some (VString "resolving channel");
       Some (VString "fetching videos"); Some (VString "videos fetched");
       Some (VString "resolving channel")]
  ∧ statuses_monotone trace = false
  ∧ final r3 !! "job: job_1700000000000_4fzyo82" ≫= (.!! "status")
    = Some (VString "videos fetched")
  ∧ final r4 !! "job: job_1700000000000_4fzyo82" ≫= (.!! "status")
    = Some (VString "resolving channel").
Proof. cbv zeta. repeat split; reflexivity. Qed.

(** ** The key of a job's record *)

Section Keys.

Variables (env : Env) (b : Obj) (st : gmap string Obj).

(** The steps after the submission look the job up under
    [job_key jobID]; the second document of the submit step stores it
    there. *)
Lemma submit_alt_record_read_back :
  valid_submission b →
  final (SubmitAlt.handler env (mkRequest (Some b)) st)
    !! job_key (VString (new_jobID env))
  = Some (new_job env b).
Proof.
  intros Hvalid. rewrite (submit_alt_valid_run env b st Hvalid).
  cbn [final]. apply lookup_insert_eq.
Qed.

(** The first document stores it under another key and leaves that one
    as it was. *)
Lemma submit_record_elsewhere :
  valid_submission b →
  final (Submit.handler env (mkRequest (Some b)) st)
    !! job_key (VString (new_jobID env))
  = st !! job_key (VString (new_jobID env)).
Proof.
  intros Hvalid. rewrite (submit_valid_run env b st Hvalid).
  cbn [final]. apply lookup_insert_ne, key_formats_differ.
Qed.

End Keys.

(** C2, on the code. The first document of the submit step stores the job
    under ["job:" + jobID]; the resolution step, run on the event that
    submission emits, reads and writes ["job: " + jobID]. It finds nothing
    there, and writes a record that holds only a status; the record the
    submission wrote is never read back. *)
Theorem submit_record_not_read_back :
  let r1 := Submit.handler sample_env (mkRequest (Some sample_body)) ∅ in
  let r2 := deliver_all sample_env (emitted (ops r1)) (final r1) in
  map fst (writes (ops r1)) = ["job:job_1700000000000_4fzyo82"]
  ∧ reads (ops r2) = ["job: job_1700000000000_4fzyo82"]
  ∧ map fst (writes (ops r2)) = ["job: job_1700000000000_4fzyo82"]
  ∧ final r1 !! "job: job_1700000000000_4fzyo82" = None
  ∧ final r2 !! "job: job_1700000000000_4fzyo82"
    = Some {[ "status" := VString "resolving channel" ]}
  ∧ final r2 !! "job:job_1700000000000_4fzyo82"
    = Some (new_job sample_env sample_body).
Proof.
  cbv zeta. split; [|split; [|split; [|split; [|split]]]]; reflexivity.
Qed.

(** * Further properties of the steps *)

(** ** Submission: responses and effects *)

Section SubmitEffects.

Variables (env : Env) (req : Request) (st : gmap string Obj).

Lemma submit_emits_declared :
  declared (api_emits SubmitConfig.config) (ops (Submit.handler env req st)) = true
  ∧ (length (emitted (ops (Submit.handler env req st))) ≤ 1)%nat.
Proof.
  destruct req as [[b|]]; js_run;
    [destruct (truthy (prop b "channel")), (truthy (prop b "email")),
       (Regex.test Submit.emailRegex (to_string (prop b "email")))|];
    (split; [reflexivity|cbn; lia]).
Qed.

Lemma submit_alt_emits_declared :
  declared (api_emits SubmitConfig.config) (ops (SubmitAlt.handler env req st)) = true
  ∧ (length (emitted (ops (SubmitAlt.handler env req st))) ≤ 1)%nat.
Proof.
  destruct req as [[b|]]; js_run;
    [destruct (truthy (prop b "channel")), (truthy (prop b "email")),
       (Regex.test SubmitAlt.eamilRegex (to_string (prop b "email")))|];
    (split; [reflexivity|cbn; lia]).
Qed.

Lemma submit_frame (k : string) :
  k ≠ "job:" +:+ new_jobID env →
  final (Submit.handler env req st) !! k = st !! k.
Proof.
  intros Hk. destruct req as [[b|]]; js_run;
    [destruct (truthy (prop b "channel")), (truthy (prop b "email")),
       (Regex.test Submit.emailRegex (to_string (prop b "email")))|];
    try reflexivity.
  by apply lookup_insert_ne.
Qed.

Lemma submit_alt_frame (k : string) :
  k ≠ "job: " +:+ new_jobID env →
  final (SubmitAlt.handler env req st) !! k = st !! k.
Proof.
  intros Hk. destruct req as [[b|]]; js_run;
    [destruct (truthy (prop b "channel")), (truthy (prop b "email")),
       (Regex.test SubmitAlt.eamilRegex (to_string (prop b "email")))|];
    try reflexivity.
  by apply lookup_insert_ne.
Qed.

Lemma submit_returns :
  (∃ resp, outcome (Submit.handler env req st) = Returns resp)
  ∧ (∃ resp, outcome (SubmitAlt.handler env req st) = Returns resp).
Proof.
  split.
  - destruct req as [[b|]]; js_run; [|eauto].
    destruct (truthy (prop b "channel")), (truthy (prop b "email")),
      (Regex.test Submit.emailRegex (to_string (prop b "email"))); eauto.
  - destruct req as [[b|]]; js_run; [|eauto].
    destruct (truthy (prop b "channel")), (truthy (prop b "email")),
      (Regex.test SubmitAlt.eamilRegex (to_string (prop b "email"))); eauto.
Qed.

(** X3. A request without a body is answered with 500 and
    ["Internal Server Error"]: the destructuring of [req.body] throws before
    the validation, the catch block logs, and nothing is written or emitted.
    Both documents of the submit step. *)
Theorem submit_without_body :
  Submit.handler env (mkRequest None) st
  = mkRun (Returns (mkResponse 500 (ErrorBody "Internal Server Error"))) st
      [Log "info" "Received submission request";
       Log "error" "Error in Submission handler:"]
  ∧ SubmitAlt.handler env (mkRequest None) st
    = mkRun (Returns (mkResponse 500 (ErrorBody "Internal Server Error"))) st
        [Log "info" "Received submission request";
         Log "error" "Error in Submission handler:"].
Proof. split; reflexivity. Qed.

(** X4. Whatever the request, the submit handler answers 201, 400 or 500;
    it writes one record and emits one event exactly when it answers 201, and
    otherwise leaves the store as it was and the bus silent. Both documents
    of the submit step. *)
Theorem submit_untouched_unless_created :
  untouched_unless_created st (Submit.handler env req st)
  ∧ untouched_unless_created st (SubmitAlt.handler env req st).
Proof.
  unfold untouched_unless_created, response_status. split.
  - remember (Submit.handler env req st) as r eqn:E. revert E.
    destruct req as [[b|]]; js_run;
      [destruct (truthy (prop b "channel")), (truthy (prop b "email")),
         (Regex.test Submit.emailRegex (to_string (prop b "email")))|];
      intros ->;
      cbn [outcome status ops final writes emitted omap list_omap length];
      (split; [auto|]); repeat split; intros; try done;
      try (exfalso; auto; fail).
  - remember (SubmitAlt.handler env req st) as r eqn:E. revert E.
    destruct req as [[b|]]; js_run;
      [destruct (truthy (prop b "channel")), (truthy (prop b "email")),
         (Regex.test SubmitAlt.eamilRegex (to_string (prop b "email")))|];
      intros ->;
      cbn [outcome status ops final writes emitted omap list_omap length];
      (split; [auto|]); repeat split; intros; try done;
      try (exfalso; auto; fail).
Qed.

End SubmitEffects.

(** ** The two event steps on every path *)

Section StageEffects.

Variables (env : Env) (d : Obj) (st : gmap string Obj).

Let jobID : Val := prop d "jobID".
Let email : Val := prop d "email".
Let key : Val := env_YOUTUBE_API_KEY env.

Lemma resolve_returns (ev : option Obj) :
  outcome (ResolveChannel.handler env ev st) = Returns tt.
Proof. destruct ev as [d'|]; js_walk; reflexivity. Qed.

Lemma listing_returns (ev : option Obj) :
  outcome (FetchVideos.handler env ev st) = Returns tt.
Proof. destruct ev as [d'|]; js_walk; reflexivity. Qed.

Lemma resolve_emits_declared :
  declared (ev_emits ResolveChannelConfig.config)
    (ops (ResolveChannel.handler env (Some d) st)) = true
  ∧ (length (emitted (ops (ResolveChannel.handler env (Some d) st))) ≤ 1)%nat.
Proof.
  remember (ResolveChannel.handler env (Some d) st) as r eqn:E. revert E.
  js_walk; intros ->; cbn [ops]; (split; [reflexivity|cbn; lia]).
Qed.

Lemma listing_emits_declared :
  declared (ev_emits FetchVideosConfig.config)
    (ops (FetchVideos.handler env (Some d) st)) = true
  ∧ (length (emitted (ops (FetchVideos.handler env (Some d) st))) ≤ 1)%nat.
Proof.
  remember (FetchVideos.handler env (Some d) st) as r eqn:E. revert E.
  js_walk; intros ->; cbn [ops]; (split; [reflexivity|cbn; lia]).
Qed.

Lemma resolve_frame (k : string) :
  k ≠ job_key jobID →
  final (ResolveChannel.handler env (Some d) st) !! k = st !! k.
Proof.
  intros Hk. js_walk; rewrite ?lookup_insert_ne by (symmetry; exact Hk);
    reflexivity.
Qed.

Lemma listing_frame (k : string) :
  k ≠ job_key jobID →
  final (FetchVideos.handler env (Some d) st) !! k = st !! k.
Proof.
  intros Hk. js_walk; rewrite ?lookup_insert_ne by (symmetry; exact Hk);
    reflexivity.
Qed.

Lemma resolve_events_identity (e : Event) :
  e ∈ emitted (ops (ResolveChannel.handler env (Some d) st)) →
  prop (data e) "jobID" = jobID ∧ prop (data e) "email" = email.
Proof.
  js_walk; cbn [emitted omap list_omap]; intros Hin; each_in Hin;
    subst e; cbn [data]; split; prop_lookup; reflexivity.
Qed.

Lemma listing_events_identity (e : Event) :
  e ∈ emitted (ops (FetchVideos.handler env (Some d) st)) →
  prop (data e) "jobID" = jobID ∧ prop (data e) "email" = email.
Proof.
  js_walk; cbn [emitted omap list_omap]; intros Hin; each_in Hin;
    subst e; cbn [data]; split; prop_lookup; reflexivity.
Qed.

(** X6. When the payload gives a usable [jobID] and a usable [email], each
    of the two event steps emits exactly one event, on every path: success,
    not found, no videos, or any failure. *)
Theorem identified_stage_emits_once :
  truthy jobID = true → truthy email = true →
  length (emitted (ops (ResolveChannel.handler env (Some d) st))) = 1
  ∧ length (emitted (ops (FetchVideos.handler env (Some d) st))) = 1.
Proof.
  intros Hj He.
  split; js_run; fold jobID email; rewrite ?Hj, ?He; js_walk; reflexivity.
Qed.

(** X8. Every event the resolution step or the listing step emits carries
    the [jobID] and the [email] of the payload it received, unchanged. *)
Theorem events_carry_identity (e : Event) :
  e ∈ emitted (ops (ResolveChannel.handler env (Some d) st))
  ∨ e ∈ emitted (ops (FetchVideos.handler env (Some d) st)) →
  prop (data e) "jobID" = jobID ∧ prop (data e) "email" = email.
Proof.
  intros [Hin|Hin];
    eauto using resolve_events_identity, listing_events_identity.
Qed.

(** X9. In every record the two event steps write, a [status] of ["failed"]
    comes with an [error] text; a record written with another status has
    the [error] field of the record read (none for a job that had none). *)
Theorem error_field_iff_failed (k : string) (o : Obj) :
  (k, o) ∈ writes (ops (ResolveChannel.handler env (Some d) st))
  ∨ (k, o) ∈ writes (ops (FetchVideos.handler env (Some d) st)) →
  (o !! "status" = Some (VString "failed") →
   ∃ m, o !! "error" = Some (VString m))
  ∧ (o !! "status" ≠ Some (VString "failed") →
     o !! "error" = read_record st jobID !! "error").
Proof.
  intros [Hin|Hin]; revert Hin; js_walk; intros Hin; error_leaf Hin.
Qed.

(** X10. With the credential present, the first write of the resolution
    step puts the record it read to ["resolving channel"], and the first
    write of the listing step puts it to ["fetching videos"], whatever the
    status of that record: a step run again on a job that has failed or
    finished sets it back in progress. *)
Theorem in_progress_write_first :
  truthy key = true →
  (∃ rest,
     writes (ops (ResolveChannel.handler env (Some d) st))
     = (job_key jobID,
        <["status" := VString "resolving channel"]> (read_record st jobID))
       :: rest)
  ∧ (∃ rest,
       writes (ops (FetchVideos.handler env (Some d) st))
       = (job_key jobID,
          <["status" := VString "fetching videos"]> (read_record st jobID))
         :: rest).
Proof.
  intros Hkey.
  split; js_run; fold key; rewrite Hkey; js_walk;
    cbn [writes omap list_omap]; eauto.
Qed.

End StageEffects.




(** X5. Every handler emits at most one event, and only on a topic its
    [config.emits] declares: [yt.submit] for the submit step,
    [yt.channel.resolved] or [yt.channel.error] for the resolution step,
    [yt.videos.fetched] or [yt.videos.error] for the listing step. *)
Theorem emitted_topics_declared (env : Env) (st : gmap string Obj)
    (req : Request) (d : Obj) :
  (declared (api_emits SubmitConfig.config) (ops (Submit.handler env req st)) = true
   ∧ (length (emitted (ops (Submit.handler env req st))) ≤ 1)%nat)
  ∧ (declared (api_emits SubmitConfig.config)
       (ops (SubmitAlt.handler env req st)) = true
     ∧ (length (emitted (ops (SubmitAlt.handler env req st))) ≤ 1)%nat)
  ∧ (declared (ev_emits ResolveChannelConfig.config)
       (ops (ResolveChannel.handler env (Some d) st)) = true
     ∧ (length (emitted (ops (ResolveChannel.handler env (Some d) st))) ≤ 1)%nat)
  ∧ (declared (ev_emits FetchVideosConfig.config)
       (ops (FetchVideos.handler env (Some d) st)) = true
     ∧ (length (emitted (ops (FetchVideos.handler env (Some d) st))) ≤ 1)%nat).
Proof.
  split; [apply submit_emits_declared|].
  split; [apply submit_alt_emits_declared|].
  split; [apply resolve_emits_declared|apply listing_emits_declared].
Qed.

(** X7. A handler changes the store under one key at most: the submit
    handler under the key of the job it creates, the resolution and listing
    steps under [job_key] of the payload's [jobID]. Every other key holds
    what it held. *)
Theorem handlers_touch_one_key (env : Env) (st : gmap string Obj)
    (req : Request) (d : Obj) (k : string) :
  (k ≠ "job:" +:+ new_jobID env →
   final (Submit.handler env req st) !! k = st !! k)
  ∧ (k ≠ "job: " +:+ new_jobID env →
     final (SubmitAlt.handler env req st) !! k = st !! k)
  ∧ (k ≠ job_key (prop d "jobID") →
     final (ResolveChannel.handler env (Some d) st) !! k = st !! k
     ∧ final (FetchVideos.handler env (Some d) st) !! k = st !! k).
Proof.
  split; [apply submit_frame|]. split; [apply submit_alt_frame|].
  intros Hk. split; [by apply resolve_frame|by apply listing_frame].
Qed.

(** ** The paths of the two event steps *)

Lemma failed_over_started (message literal : string) (base : Obj) :
  failed_record message (<["status" := VString literal]> base)
  = failed_record message base.
Proof. unfold failed_record. by rewrite insert_insert_eq. Qed.

Lemma to_video_complete (item : Member SearchResult) :
  if complete item then ∃ v, FetchVideos.to_video item = Returns v
  else ∃ msg, FetchVideos.to_video item = Throws msg.
Proof.
  destruct item as [| |[[| |id] [| |[t p [| |[[| |df]]]]]]]; cbn; eauto.
Qed.

Lemma map_items_complete (l : list (Member SearchResult)) :
  if forallb complete l
  then ∃ videos, map_items FetchVideos.to_video l = Returns videos
  else ∃ msg, map_items FetchVideos.to_video l = Throws msg.
Proof.
  induction l as [|x l IH]; cbn [forallb map_items]; [eauto|].
  pose proof (to_video_complete x) as Hx.
  destruct (complete x); destruct Hx as [v ->]; cbn [andb obind]; [|eauto].
  destruct (forallb complete l); destruct IH as [vs ->]; cbn [obind]; eauto.
Qed.

Section Paths.

Variables (env : Env) (d : Obj) (st : gmap string Obj).

Let jobID : Val := prop d "jobID".
Let email : Val := prop d "email".
Let key : Val := env_YOUTUBE_API_KEY env.

Lemma resolve_catch_fails (msg : string) (s : gmap string Obj) :
  truthy jobID = true → truthy email = true →
  ResolveChannel.handler_catch jobID email msg s
  = mkRun (Returns tt)
      (<[job_key jobID := failed_record msg (spread (s !! job_key jobID))]> s)
      [Log "error" "Error resolving channel";
       StateGet (job_key jobID);
       StateSet (job_key jobID) (failed_record msg (spread (s !! job_key jobID)));
       Emit (mkEvent "yt.channel.error"
               {[ "jobID" := jobID; "email" := email;
                  "error" := VString ("Failed to resolve channel: " +:+ msg) ]})].
Proof. intros Hj He. js_run. rewrite Hj, He. reflexivity. Qed.

Lemma listing_catch_fails (msg : string) (s : gmap string Obj) :
  truthy jobID = true → truthy email = true →
  FetchVideos.handler_catch jobID email msg s
  = mkRun (Returns tt)
      (<[job_key jobID := failed_record msg (spread (s !! job_key jobID))]> s)
      [Log "error" "Error fetching videos";
       StateGet (job_key jobID);
       StateSet (job_key jobID) (failed_record msg (spread (s !! job_key jobID)));
       Emit (mkEvent "yt.videos.error"
               {[ "jobID" := jobID; "email" := email;
                  "error" := VString ("Failed to fetch videos: " +:+ msg) ]})].
Proof. intros Hj He. js_run. rewrite Hj, He. reflexivity. Qed.

Lemma resolve_failure_run (msg : string) :
  truthy jobID = true → truthy email = true →
  outcome (ResolveChannel.handler_try env d jobID email st) = Throws msg →
  let r := ResolveChannel.handler env (Some d) st in
  final r = <[job_key jobID := failed_record msg (read_record st jobID)]> st
  ∧ emitted (ops r)
    = [mkEvent "yt.channel.error"
         {[ "jobID" := jobID; "email" := email;
            "error" := VString ("Failed to resolve channel: " +:+ msg) ]}].
Proof.
  intros Hj He Hthrow. unfold jobID, email in *. cbv zeta.
  destruct (resolve_try_throws env d st msg Hthrow) as [Hemit Hfinal].
  change (ResolveChannel.handler env (Some d) st)
    with (try_catch
            (ResolveChannel.handler_try env d (prop d "jobID") (prop d "email"))
            (ResolveChannel.handler_catch (prop d "jobID") (prop d "email")) st).
  rewrite (try_catch_throws _ _ _ msg Hthrow).
  rewrite (resolve_catch_fails msg _ Hj He). cbn [outcome final ops].
  unfold emitted in *. rewrite omap_app, Hemit. split; [|reflexivity].
  destruct Hfinal as [(_ & -> & _)|(_ & -> & _)]; [reflexivity|].
  rewrite lookup_insert_eq, insert_insert_eq. cbn [spread from_option id].
  by rewrite failed_over_started.
Qed.

Lemma listing_failure_run (msg : string) :
  truthy jobID = true → truthy email = true →
  outcome (FetchVideos.handler_try env d jobID email st) = Throws msg →
  let r := FetchVideos.handler env (Some d) st in
  final r = <[job_key jobID := failed_record msg (read_record st jobID)]> st
  ∧ emitted (ops r)
    = [mkEvent "yt.videos.error"
         {[ "jobID" := jobID; "email" := email;
            "error" := VString ("Failed to fetch videos: " +:+ msg) ]}].
Proof.
  intros Hj He Hthrow. unfold jobID, email in *. cbv zeta.
  destruct (listing_try_throws env d st msg Hthrow) as [Hemit Hfinal].
  change (FetchVideos.handler env (Some d) st)
    with (try_catch
            (FetchVideos.handler_try env d (prop d "jobID") (prop d "email"))
            (FetchVideos.handler_catch (prop d "jobID") (prop d "email")) st).
  rewrite (try_catch_throws _ _ _ msg Hthrow).
  rewrite (listing_catch_fails msg _ Hj He). cbn [outcome final ops].
  unfold emitted in *. rewrite omap_app, Hemit. split; [|reflexivity].
  destruct Hfinal as [(_ & -> & _)|(_ & -> & _)]; [reflexivity|].
  rewrite lookup_insert_eq, insert_insert_eq. cbn [spread from_option id].
  by rewrite failed_over_started.
Qed.

(** X11. When a failure with message [msg] is raised in the resolution or
    the listing step and the payload gave a usable [jobID] and [email], the
    job's record ends as the record read with [status = "failed"] and
    [error = msg], and the step emits one error event
    ([yt.channel.error], resp. [yt.videos.error]) carrying [jobID], [email]
    and [error = "Failed to resolve channel: " + msg], resp.
    ["Failed to fetch videos: " + msg]. *)
Theorem failure_with_identity (msg : string) :
  truthy jobID = true → truthy email = true →
  (outcome (ResolveChannel.handler_try env d jobID email st) = Throws msg →
   let r := ResolveChannel.handler env (Some d) st in
   final r = <[job_key jobID := failed_record msg (read_record st jobID)]> st
   ∧ emitted (ops r)
     = [mkEvent "yt.channel.error"
          {[ "jobID" := jobID; "email" := email;
             "error" := VString ("Failed to resolve channel: " +:+ msg) ]}])
  ∧ (outcome (FetchVideos.handler_try env d jobID email st) = Throws msg →
     let r := FetchVideos.handler env (Some d) st in
     final r = <[job_key jobID := failed_record msg (read_record st jobID)]> st
     ∧ emitted (ops r)
       = [mkEvent "yt.videos.error"
            {[ "jobID" := jobID; "email" := email;
               "error" := VString ("Failed to fetch videos: " +:+ msg) ]}]).
Proof.
  intros Hj He. split; intros Hthrow.
  - by apply resolve_failure_run.
  - by apply listing_failure_run.
Qed.

(** X12. Without the credential ([YOUTUBE_API_KEY] unset or empty) and with
    a usable [jobID] and [email], each event step sends no request, writes
    once, the record read with [status = "failed"] and
    [error = "YOUTUBE_API_KEY is not set in environment variables"], and
    emits its error event with that message behind the step's prefix. *)
Theorem missing_credential_fails :
  truthy key = false → truthy jobID = true → truthy email = true →
  let message := "YOUTUBE_API_KEY is not set in environment variables" in
  let stored := failed_record message (read_record st jobID) in
  (let r := ResolveChannel.handler env (Some d) st in
   fetched (ops r) = []
   ∧ writes (ops r) = [(job_key jobID, stored)]
   ∧ final r = <[job_key jobID := stored]> st
   ∧ emitted (ops r)
     = [mkEvent "yt.channel.error"
          {[ "jobID" := jobID; "email" := email;
             "error" := VString ("Failed to resolve channel: " +:+ message) ]}])
  ∧ (let r := FetchVideos.handler env (Some d) st in
     fetched (ops r) = []
     ∧ writes (ops r) = [(job_key jobID, stored)]
     ∧ final r = <[job_key jobID := stored]> st
     ∧ emitted (ops r)
       = [mkEvent "yt.videos.error"
            {[ "jobID" := jobID; "email" := email;
               "error" := VString ("Failed to fetch videos: " +:+ message) ]}]).
Proof.
  intros Hkey Hj He. cbv zeta.
  split; js_run; fold key jobID email; rewrite Hkey; js_run;
    rewrite Hj, He; repeat split; reflexivity.
Qed.

(** X13. A channel text that does not start with ["@"] (a channel id, a
    name, the empty string) is never looked up: the resolution step sends no
    request, ends the job with [status = "failed"] and
    [error = "Channel not found"], and emits [yt.channel.error] with
    [{jobID, email}]. *)
Theorem non_handle_not_found (s : string) :
  truthy key = true →
  prop d "channel" = VString s →
  js_startsWith s "@" = false →
  let r := ResolveChannel.handler env (Some d) st in
  let stored := failed_record "Channel not found" (read_record st jobID) in
  fetched (ops r) = []
  ∧ final r = <[job_key jobID := stored]> st
  ∧ emitted (ops r)
    = [mkEvent "yt.channel.error" {[ "jobID" := jobID; "email" := email ]}].
Proof.
  intros Hkey Hch Hat. cbv zeta. js_run. fold key. rewrite Hkey, Hch. js_run.
  rewrite Hat. cbn [final ops]. split; [reflexivity|].
  split; [apply insert_insert_eq|reflexivity].
Qed.

(** X14. When the search for a handle returns entries, only the first one
    counts: the resolution step sends that one request and tries neither
    the other entries nor the fallback search. If the first entry has its
    [id] and [snippet] objects but no usable channel id, the job ends with
    ["Channel not found"] and [yt.channel.error] carries [{jobID, email}].
    If it lacks one of the two objects (or is [null]), reading it raises a
    TypeError: with a usable [jobID] and [email], the job ends with
    [status = "failed"] and the TypeError's message as [error], and
    [yt.channel.error] carries that message behind
    ["Failed to resolve channel: "]. *)
Theorem first_hit_without_channel_id (h : string)
    (first : Member SearchResult) (rest : list (Member SearchResult)) :
  truthy key = true →
  prop d "channel" = VString (String "@" h) →
  env_fetch env (ResolveChannel.searchURL (VString h) key)
  = FetchOk (Has (mkSearchData (Some (first :: rest)))) →
  (∀ id snippet,
     first = Has (mkSearchResult (Has id) (Has snippet)) →
     truthy (leaf_val (id_channelId id)) = false) →
  let r := ResolveChannel.handler env (Some d) st in
  fetched (ops r) = [ResolveChannel.searchURL (VString h) key]
  ∧ (has_id_and_snippet first →
     final r
     = <[job_key jobID :=
           failed_record "Channel not found" (read_record st jobID)]> st
     ∧ emitted (ops r)
       = [mkEvent "yt.channel.error" {[ "jobID" := jobID; "email" := email ]}])
  ∧ (¬ has_id_and_snippet first →
     truthy jobID = true → truthy email = true →
     ∃ msg,
       ResolveChannel.first_hit first = Throws msg
       ∧ final r
         = <[job_key jobID := failed_record msg (read_record st jobID)]> st
       ∧ emitted (ops r)
         = [mkEvent "yt.channel.error"
              {[ "jobID" := jobID; "email" := email;
                 "error" := VString ("Failed to resolve channel: " +:+ msg) ]}]).
Proof.
  intros Hkey Hch Hfetch Hid. cbv zeta. unfold has_id_and_snippet.
  js_run. fold key jobID email. rewrite Hkey, Hch. js_run.
  cbn [js_startsWith Ascii.eqb Bool.eqb].
  unfold ResolveChannel.handle_of. cbn [to_string js_substring1].
  rewrite Hfetch. js_run. cbn [items].
  destruct first as [| |[[| |id] [| |snippet]]];
    cbv beta iota zeta delta
      [ResolveChannel.first_hit obind read item_id item_snippet];
    try rewrite (Hid id snippet eq_refl).
  all: try (destruct (truthy (leaf_val (id_channelId id)))).
  all: destruct (truthy jobID) eqn:Hj, (truthy email) eqn:He.
  all: js_run.
  all: (split; [reflexivity|]).
  all: split;
    [ intros (id' & snippet' & Heq); try discriminate Heq;
      (split; [unfold read_record, job_key; caught_leaf|reflexivity])
    | intros Hno Hj' He'; try discriminate Hj'; try discriminate He';
      first [ by destruct Hno; eauto
            | eexists; split; [reflexivity|];
              (split; [unfold read_record, job_key; caught_leaf|reflexivity]) ] ].
Qed.


(** X15. A payload whose [channel] is not a string (missing, in
    particular) makes [channel.startsWith] throw: with the credential
    present and a usable [jobID] and [email], no request is sent, the job
    ends with [status = "failed"] and the exception's message as [error],
    and [yt.channel.error] carries that message behind
    ["Failed to resolve channel: "]. *)
Theorem channel_not_a_string_fails :
  truthy key = true → truthy jobID = true → truthy email = true →
  (∀ s, prop d "channel" ≠ VString s) →
  let r := ResolveChannel.handler env (Some d) st in
  ∃ msg,
    fetched (ops r) = []
    ∧ final r = <[job_key jobID := failed_record msg (read_record st jobID)]> st
    ∧ emitted (ops r)
      = [mkEvent "yt.channel.error"
           {[ "jobID" := jobID; "email" := email;
              "error" := VString ("Failed to resolve channel: " +:+ msg) ]}].
Proof.
  intros Hkey Hj He Hch. cbv zeta. js_run. fold key jobID email. rewrite Hkey.
  js_run. destruct (prop d "channel") as [| |s|vs] eqn:E;
    [| |by destruct (Hch s)|]; js_run; rewrite Hj, He; eexists;
    (split; [reflexivity|]);
    (split; [|reflexivity]); cbn [final];
    rewrite lookup_insert_eq, insert_insert_eq; cbn [spread from_option id];
    fold (failed_record
            "Cannot read properties of undefined (reading 'startsWith')"
            (<["status" := VString "resolving channel"]>
               (spread (st !! ("job: " +:+ to_string jobID)))));
    fold (failed_record
            "Cannot read properties of null (reading 'startsWith')"
            (<["status" := VString "resolving channel"]>
               (spread (st !! ("job: " +:+ to_string jobID)))));
    fold (failed_record "channel.startsWith is not a function"
            (<["status" := VString "resolving channel"]>
               (spread (st !! ("job: " +:+ to_string jobID)))));
    by rewrite failed_over_started.
Qed.

Lemma listing_malformed_try (first : Member SearchResult)
    (rest : list (Member SearchResult)) (msg : string) :
  truthy key = true →
  env_fetch env (FetchVideos.searchURL (prop d "channelID") key)
  = FetchOk (Has (mkSearchData (Some (first :: rest)))) →
  map_items FetchVideos.to_video (first :: rest) = Throws msg →
  outcome (FetchVideos.handler_try env d jobID email st) = Throws msg.
Proof.
  intros Hkey Hfetch Hmap. js_run. fold key. rewrite Hkey, Hfetch. js_run.
  cbn [items]. rewrite Hmap. reflexivity.
Qed.


(** X16. When the listing call returns one or more entries, the listing
    step maps every one of them, in the order returned and whatever their
    number: it does not cut at five. If the entries are complete search
    resources, the job's record ends with [status = "videos fetched"] and
    one video per entry, each made of the entry's video id, title,
    publication time and default thumbnail, with the watch URL built from
    the video id; the [yt.videos.fetched] event carries the same videos, the
    [channelName] of the payload, [jobID] and [email]. If an entry lacks
    [id], [snippet], [snippet.thumbnails] or [snippet.thumbnails.default]
    (or is [null]), the mapping raises a TypeError and no video is stored:
    with a usable [jobID] and [email] the job ends with [status = "failed"]
    and the TypeError's message, and [yt.videos.error] is emitted. *)
Theorem listing_stores_all_returned (first : Member SearchResult)
    (rest : list (Member SearchResult)) :
  truthy key = true →
  env_fetch env (FetchVideos.searchURL (prop d "channelID") key)
  = FetchOk (Has (mkSearchData (Some (first :: rest)))) →
  let r := FetchVideos.handler env (Some d) st in
  (∀ uploads,
     first :: rest = map entry_of uploads →
     let videos := map video_of uploads in
     final r
     = <[job_key jobID :=
           <["videos" := VVideos videos]>
             (<["status" := VString "videos fetched"]> (read_record st jobID))]> st
     ∧ emitted (ops r)
       = [mkEvent "yt.videos.fetched"
            {[ "jobID" := jobID; "videos" := VVideos videos;
               "channelName" := prop d "channelName"; "email" := email ]}]
     ∧ length videos = S (length rest))
  ∧ (forallb complete (first :: rest) = true →
     ∃ videos,
       length videos = S (length rest)
       ∧ final r
         = <[job_key jobID :=
               <["videos" := VVideos videos]>
                 (<["status" := VString "videos fetched"]>
                    (read_record st jobID))]> st)
  ∧ (forallb complete (first :: rest) = false →
     truthy jobID = true → truthy email = true →
     ∃ msg,
       map_items FetchVideos.to_video (first :: rest) = Throws msg
       ∧ final r
         = <[job_key jobID := failed_record msg (read_record st jobID)]> st
       ∧ emitted (ops r)
         = [mkEvent "yt.videos.error"
              {[ "jobID" := jobID; "email" := email;
                 "error" := VString ("Failed to fetch videos: " +:+ msg) ]}]).
Proof.
  intros Hkey Hfetch. cbv zeta. split; [|split].
  - intros uploads Heq.
    rewrite (listing_fetched_run env d st first rest (map video_of uploads)
               Hkey Hfetch)
      by (rewrite Heq; apply map_items_entries).
    cbn [final ops emitted omap list_omap].
    split; [apply insert_insert_eq|]. split; [reflexivity|].
    rewrite List.length_map. apply (f_equal length) in Heq.
    rewrite List.length_map in Heq. by rewrite <- Heq.
  - intros Hall. pose proof (map_items_complete (first :: rest)) as Hmap.
    rewrite Hall in Hmap. destruct Hmap as [videos Hmap]. exists videos.
    split; [apply (map_items_length _ _ _ Hmap)|].
    rewrite (listing_fetched_run env d st first rest videos Hkey Hfetch Hmap).
    cbn [final]. apply insert_insert_eq.
  - intros Hsome Hj He. pose proof (map_items_complete (first :: rest)) as Hmap.
    rewrite Hsome in Hmap. destruct Hmap as [msg Hmap]. exists msg.
    split; [exact Hmap|].
    apply (listing_failure_run msg Hj He).
    by apply (listing_malformed_try first rest).
Qed.


End Paths.

(** ** Jobs through the pipeline *)

Lemma final_bind {A B} (m : M A) (f : A → M B) (s : gmap string Obj) (a : A) :
  outcome (m s) = Returns a →
  final (bind m f s) = final (f a (final (m s))).
Proof.
  unfold bind. destruct (m s) as [[a'|msg] s1 l1]; cbn; [|discriminate].
  intros [= ->]. by destruct (f a s1).
Qed.

Section Delivery.

Variable env : Env.

Lemma deliver_submit (e : Event) (s : gmap string Obj) :
  topic e = "yt.submit" →
  deliver env e s = ResolveChannel.handler env (Some (data e)) s.
Proof. intros H. unfold deliver. by rewrite H. Qed.

Lemma deliver_resolved (e : Event) (s : gmap string Obj) :
  topic e = "yt.channel.resolved" →
  deliver env e s = FetchVideos.handler env (Some (data e)) s.
Proof. intros H. unfold deliver. by rewrite H. Qed.

Lemma deliver_frame (e : Event) (s : gmap string Obj) (k : string) :
  k ≠ job_key (prop (data e) "jobID") →
  final (deliver env e s) !! k = s !! k.
Proof.
  intros Hk. unfold deliver.
  destruct (String.eqb (topic e) "yt.submit"); [by apply resolve_frame|].
  destruct (String.eqb (topic e) "yt.channel.resolved");
    [by apply listing_frame|reflexivity].
Qed.

Lemma deliver_returns (e : Event) (s : gmap string Obj) :
  outcome (deliver env e s) = Returns tt.
Proof.
  unfold deliver.
  destruct (String.eqb (topic e) "yt.submit"); [apply resolve_returns|].
  destruct (String.eqb (topic e) "yt.channel.resolved");
    [apply listing_returns|reflexivity].
Qed.

(** Delivering events of one job touches that job's key only. *)
Lemma deliver_all_frame (es : list Event) (j : Val) (k : string) :
  Forall (λ e, prop (data e) "jobID" = j) es →
  k ≠ job_key j →
  ∀ s, final (deliver_all env es s) !! k = s !! k.
Proof.
  intros Hes Hk. induction Hes as [|e es He _ IH]; intros s; [reflexivity|].
  cbn [deliver_all]. rewrite (final_bind _ _ _ tt (deliver_returns e s)).
  rewrite IH. apply deliver_frame. by rewrite He.
Qed.

Lemma deliver_all_single (e : Event) (s : gmap string Obj) :
  deliver_all env [e] s
  = mkRun (Returns tt) (final (deliver env e s)) (ops (deliver env e s)).
Proof.
  cbn [deliver_all]. unfold bind, ret.
  pose proof (deliver_returns e s) as H.
  destruct (deliver env e s) as [[[]|m] s1 l1]; cbn in H |- *;
    [by rewrite app_nil_r|discriminate].
Qed.

End Delivery.

Section EndToEnd.

Variables (env : Env) (b : Obj) (st : gmap string Obj).

Let key : Val := env_YOUTUBE_API_KEY env.
Let jobID : string := new_jobID env.

(** X17. With the second document of the submit step, a valid submission
    of a handle that the search resolves (a first entry with [id], a usable
    channel id and [snippet]) and whose listing returns complete search
    resources goes through the three steps: the response is 201, the events
    are [yt.submit], [yt.channel.resolved] and [yt.videos.fetched] in that
    order, each carrying the new [jobID] and the submitted [email], and the
    job's record ends as the record created by the submission with
    [status = "videos fetched"] and the videos of the entries. *)
Theorem pipeline_end_to_end (h : string) (first_id : ResourceId)
    (first_snippet : Snippet)
    (rest : list (Member SearchResult))
    (u : Upload) (us : list Upload) :
  valid_submission b →
  truthy key = true →
  prop b "channel" = VString (String "@" h) →
  env_fetch env (ResolveChannel.searchURL (VString h) key)
  = FetchOk (Has (mkSearchData
                    (Some (Has (mkSearchResult (Has first_id) (Has first_snippet)) :: rest)))) →
  truthy (leaf_val (id_channelId first_id)) = true →
  env_fetch env (FetchVideos.searchURL (leaf_val (id_channelId first_id)) key)
  = FetchOk (Has (mkSearchData (Some (map entry_of (u :: us))))) →
  let r := pipeline SubmitAlt.handler env (mkRequest (Some b)) st in
  let videos := map video_of (u :: us) in
  response_status r = Some 201%Z
  ∧ final r !! ("job: " +:+ jobID)
    = Some (<["videos" := VVideos videos]>
              (<["status" := VString "videos fetched"]> (new_job env b)))
  ∧ emitted (ops r)
    = [mkEvent "yt.submit"
         {[ "jobID" := VString jobID; "channel" := prop b "channel";
            "email" := prop b "email" ]};
       mkEvent "yt.channel.resolved"
         {[ "jobID" := VString jobID;
            "channelID" := leaf_val (id_channelId first_id);
            "channelName" := leaf_val (snippet_title first_snippet);
            "email" := prop b "email" ]};
       mkEvent "yt.videos.fetched"
         {[ "jobID" := VString jobID; "videos" := VVideos videos;
            "channelName" := leaf_val (snippet_title first_snippet);
            "email" := prop b "email" ]}].
Proof.
  intros Hvalid Hkey Hch Hsearch Hid Hlist. cbv zeta. unfold pipeline.
  rewrite (submit_alt_valid_run env b st Hvalid).
  cbn [ops final emitted omap list_omap outcome].
  rewrite deliver_all_single, deliver_submit by reflexivity.
  cbn [data ops final].
  set (e1 := {[ "jobID" := VString (new_jobID env);
                "channel" := prop b "channel";
                "email" := prop b "email" ]} : Obj).
  assert (Hres : resolves_to env e1 first_id first_snippet).
  { split; [exact Hkey|]. exists h, rest.
    split; [|split; [exact Hsearch|exact Hid]].
    subst e1. prop_lookup. exact Hch. }
  rewrite (resolve_found_run env e1 _ first_id first_snippet Hres).
  cbn [ops final emitted omap list_omap].
  rewrite deliver_all_single, deliver_resolved by reflexivity.
  cbn [data ops final].
  set (e2 := {[ "jobID" := prop e1 "jobID";
                "channelID" := leaf_val (id_channelId first_id);
                "channelName" := leaf_val (snippet_title first_snippet);
                "email" := prop e1 "email" ]} : Obj).
  assert (Hj1 : prop e1 "jobID" = VString jobID)
    by (subst e1; prop_lookup; reflexivity).
  assert (He1 : prop e1 "email" = prop b "email")
    by (subst e1; prop_lookup; reflexivity).
  assert (Hj2 : prop e2 "jobID" = VString jobID)
    by (subst e2; prop_lookup; exact Hj1).
  assert (He2 : prop e2 "email" = prop b "email")
    by (subst e2; prop_lookup; exact He1).
  assert (Hc2 : prop e2 "channelID" = leaf_val (id_channelId first_id))
    by (subst e2; prop_lookup; reflexivity).
  assert (Hn2 : prop e2 "channelName" = leaf_val (snippet_title first_snippet))
    by (subst e2; prop_lookup; reflexivity).
  rewrite (listing_fetched_run env e2 _ (entry_of u) (map entry_of us)
             (map video_of (u :: us)) Hkey)
    by first [ rewrite Hc2; exact Hlist | apply (map_items_entries (u :: us)) ].
  cbn [ops final emitted omap list_omap app].
  rewrite Hj2, He2, Hn2. subst e2. rewrite Hj1, He1.
  split; [reflexivity|]. split; [|reflexivity].
  change (job_key (VString jobID)) with ("job: " +:+ jobID).
  rewrite lookup_insert_eq. f_equal.
  unfold read_record. change (job_key (VString jobID)) with ("job: " +:+ jobID).
  rewrite !lookup_insert_eq. cbn [spread from_option id].
  by rewrite insert_insert_eq.
Qed.

(** X18. With the first document of the submit step, the record a valid
    submission creates is never touched again: whatever the later steps do
    and whatever the remote service answers, at the end of the pipeline the
    key ["job:" + jobID] still holds the record as created, with
    [status = "queued"]. *)
Theorem first_submit_stays_queued :
  valid_submission b →
  let r := pipeline Submit.handler env (mkRequest (Some b)) st in
  final r !! ("job:" +:+ jobID) = Some (new_job env b)
  ∧ new_job env b !! "status" = Some (VString "queued").
Proof.
  intros Hvalid. cbv zeta. split; [|reflexivity]. unfold pipeline. cbn [final].
  rewrite (submit_valid_run env b st Hvalid).
  cbn [ops final emitted omap list_omap].
  set (e1 := mkEvent "yt.submit"
               {[ "jobID" := VString (new_jobID env);
                  "channel" := prop b "channel";
                  "email" := prop b "email" ]}).
  assert (Hj1 : prop (data e1) "jobID" = VString jobID)
    by (subst e1; cbn [data]; prop_lookup; reflexivity).
  assert (Hne : "job:" +:+ jobID ≠ job_key (VString jobID))
    by apply key_formats_differ.
  rewrite (deliver_all_frame env _ (VString jobID)); [| |exact Hne].
  - rewrite (deliver_all_frame env [e1] (VString jobID)); [| |exact Hne].
    + apply lookup_insert_eq.
    + by constructor.
  - rewrite deliver_all_single, deliver_submit by reflexivity. cbn [ops].
    apply Forall_forall. intros e He.
    apply resolve_events_identity in He as [-> _]. exact Hj1.
Qed.

End EndToEnd.

(** ** Job identifiers *)

Lemma Z_to_string_inj (a b : Z) : Z_to_string a = Z_to_string b → a = b.
Proof.
  unfold Z_to_string. intros H.
  assert (Hinj : ∀ z, NilZero.int_of_string (NilZero.string_of_int (Z.to_int z))
                      = Some (Z.to_int z)).
  { intros z. apply NilZero.isi; destruct z as [|p|p]; try discriminate;
      cbn [Z.to_int]; intros [= Hp]; by apply Unsigned.to_uint_nonnil in Hp. }
  apply (f_equal NilZero.int_of_string) in H. rewrite !Hinj in H.
  injection H as H. apply (f_equal Z.of_int) in H.
  by rewrite !DecimalZ.of_to in H.
Qed.

(** Two texts made of characters of a class, each followed by a separator
    outside the class, agree only part by part. *)
Lemma split_at_separator (p : ascii → bool) (sep : ascii) (a b x y : string) :
  p sep = false →
  all_chars p a = true → all_chars p b = true →
  a +:+ String sep x = b +:+ String sep y → a = b ∧ x = y.
Proof.
  intros Hsep. revert b. induction a as [|c a IH]; intros [|e b] Ha Hb H.
  - injection H as ->. done.
  - injection H as <- _. cbn [all_chars] in Hb. rewrite Hsep in Hb.
    discriminate Hb.
  - injection H as -> _. cbn [all_chars] in Ha. rewrite Hsep in Ha.
    discriminate Ha.
  - change (String c (a +:+ String sep x) = String e (b +:+ String sep y)) in H.
    injection H as -> H. cbn [all_chars] in Ha, Hb.
    apply andb_prop in Ha as [_ Ha]. apply andb_prop in Hb as [_ Hb].
    destruct (IH b Ha Hb H) as [-> ->]. done.
Qed.

Lemma append_inj_l (p a b : string) : p +:+ a = p +:+ b → a = b.
Proof.
  induction p as [|c p IH]; [done|]. intros H.
  change (String c (p +:+ a) = String c (p +:+ b)) in H. injection H as H. auto.
Qed.

(** X20. Two job identifiers are equal only if they were made at the same
    millisecond and with the same random suffix: a different [Date.now()]
    or a different suffix gives a different [jobID] (clock values from 1970
    on). *)
Theorem jobID_injective (env1 env2 : Env) :
  (0 ≤ env_Date_now env1)%Z → (0 ≤ env_Date_now env2)%Z →
  new_jobID env1 = new_jobID env2 →
  env_Date_now env1 = env_Date_now env2
  ∧ js_substring 2 9 (env_Math_random_36 env1)
    = js_substring 2 9 (env_Math_random_36 env2).
Proof.
  intros H1 H2 Heq. unfold new_jobID in Heq.
  apply (append_inj_l "job_") in Heq.
  apply (split_at_separator is_digit "_") in Heq as [Hd Hs];
    [|reflexivity|by apply Z_to_string_digits..].
  split; [by apply Z_to_string_inj|done].
Qed.

(** X19. Submissions are not deduplicated: two valid submissions, even of
    the same channel and email, whose job identifiers differ leave two
    records in the store, each as created; the second does not disturb the
    first. Both documents of the submit step. *)
Theorem no_deduplication (env1 env2 : Env) (b1 b2 : Obj)
    (st : gmap string Obj) :
  valid_submission b1 → valid_submission b2 →
  new_jobID env1 ≠ new_jobID env2 →
  (let s1 := final (Submit.handler env1 (mkRequest (Some b1)) st) in
   let s2 := final (Submit.handler env2 (mkRequest (Some b2)) s1) in
   s2 !! ("job:" +:+ new_jobID env1) = Some (new_job env1 b1)
   ∧ s2 !! ("job:" +:+ new_jobID env2) = Some (new_job env2 b2))
  ∧ (let s1 := final (SubmitAlt.handler env1 (mkRequest (Some b1)) st) in
     let s2 := final (SubmitAlt.handler env2 (mkRequest (Some b2)) s1) in
     s2 !! ("job: " +:+ new_jobID env1) = Some (new_job env1 b1)
     ∧ s2 !! ("job: " +:+ new_jobID env2) = Some (new_job env2 b2)).
Proof.
  intros Hv1 Hv2 Hne. cbv zeta.
  rewrite !(submit_valid_run _ _ _ Hv2), !(submit_valid_run _ _ _ Hv1).
  rewrite !(submit_alt_valid_run _ _ _ Hv2), !(submit_alt_valid_run _ _ _ Hv1).
  cbn [final]. split; split.
  - rewrite lookup_insert_ne; [apply lookup_insert_eq|].
    intros H. by apply append_inj_l in H.
  - apply lookup_insert_eq.
  - rewrite lookup_insert_ne; [apply lookup_insert_eq|].
    intros H. by apply append_inj_l in H.
  - apply lookup_insert_eq.
Qed.

(** ** The request URLs *)

Lemma encode_inj (s t : string) :
  encodeURIComponent_string s = encodeURIComponent_string t → s = t.
Proof.
  revert t. induction s as [|c s IH]; intros [|e t] H; [done| | |];
    cbn [encodeURIComponent_string] in H;
    apply (f_equal decode_char) in H; rewrite ?decode_encode_char in H;
    try discriminate H.
  injection H as -> H. by rewrite (IH t H).
Qed.

(** X21. In both request URLs the text put in (the handle after [q=], the
    channel id after [channelId=]) is made of unreserved characters and
    percent escapes only: no [&], [=], [?], [#], [/] or space of the text
    reaches the URL, so it cannot add or end a parameter. *)
Theorem request_urls_escape_text (q YOUTUBE_API_KEY : Val) :
  (∃ query,
     ResolveChannel.searchURL q YOUTUBE_API_KEY
     = "https://www.googleapis.com/youtube/v3/search?part=snippet&type=channel&q="
       +:+ query +:+ "&key=" +:+ to_string YOUTUBE_API_KEY
     ∧ all_chars url_safe query = true)
  ∧ (∃ query,
       FetchVideos.searchURL q YOUTUBE_API_KEY
       = "https://www.googleapis.com/youtube/v3/search?part=snippet&channelId="
         +:+ query +:+ "&maxResults=5&order=date&type=video&key="
         +:+ to_string YOUTUBE_API_KEY
       ∧ all_chars url_safe query = true)
  ∧ forallb (λ c, negb (url_safe c)) ["&"; "="; "?"; "#"; "/"; " "]%char = true.
Proof.
  split; [|split; [|reflexivity]];
    exists (encodeURIComponent q); (split; [reflexivity|apply encode_safe]).
Qed.

(** X22. For one credential, the request URL determines the text it was
    built from: two handles (resp. two channel ids) that give the same URL
    print as the same string. A value and its printed form do give the same
    URL: [undefined] and ["undefined"], for instance. *)
Theorem request_urls_injective (q q' YOUTUBE_API_KEY : Val) :
  ResolveChannel.searchURL q YOUTUBE_API_KEY
  = ResolveChannel.searchURL q' YOUTUBE_API_KEY
  ∨ FetchVideos.searchURL q YOUTUBE_API_KEY
    = FetchVideos.searchURL q' YOUTUBE_API_KEY →
  to_string q = to_string q'.
Proof.
  intros [H|H].
  - unfold ResolveChannel.searchURL in H. apply append_inj_l in H.
    apply (split_at_separator url_safe "&") in H as [H _];
      [|reflexivity|apply encode_safe..].
    by apply encode_inj.
  - unfold FetchVideos.searchURL in H. apply append_inj_l in H.
    apply (split_at_separator url_safe "&") in H as [H _];
      [|reflexivity|apply encode_safe..].
    by apply encode_inj.
Qed.

(** ** The further properties on the sample data *)

Lemma sample_body_valid : valid_submission sample_body.
Proof. vm_compute. done. Qed.


Lemma identified_stage_emits_once_witness :
  length (emitted (ops (ResolveChannel.handler sample_env
                          (Some (event_for (VString "@acme"))) sample_store)))
  = 1
  ∧ length (emitted (ops (FetchVideos.handler sample_env
                            (Some (event_for (VString "@acme"))) sample_store)))
    = 1.
Proof.
  apply (identified_stage_emits_once sample_env (event_for (VString "@acme"))
           sample_store); reflexivity.
Defined.

Lemma handlers_touch_one_key_witness :
  final (Submit.handler sample_env (mkRequest (Some sample_body)) sample_store)
    !! "job: j1" = sample_store !! "job: j1"
  ∧ final (ResolveChannel.handler sample_env
             (Some (event_for (VString "@acme"))) sample_store) !! "job: j2"
    = sample_store !! "job: j2".
Proof.
  split.
  - apply (handlers_touch_one_key sample_env sample_store
             (mkRequest (Some sample_body)) ∅ "job: j1").
    intros H. vm_compute in H. discriminate H.
  - apply (handlers_touch_one_key sample_env sample_store (mkRequest None)
             (event_for (VString "@acme")) "job: j2").
    intros H. vm_compute in H. discriminate H.
Defined.

Lemma events_carry_identity_witness :
  prop sample_resolved_event "jobID" = prop (event_for (VString "@acme")) "jobID"
  ∧ prop sample_resolved_event "email"
    = prop (event_for (VString "@acme")) "email".
Proof.
  apply (events_carry_identity sample_env (event_for (VString "@acme"))
           sample_store (mkEvent "yt.channel.resolved" sample_resolved_event)).
  left. apply list_elem_of_here.
Defined.

Lemma error_field_iff_failed_witness :
  let o := failed_record "Channel not found" sample_job in
  (o !! "status" = Some (VString "failed") →
   ∃ m, o !! "error" = Some (VString m))
  ∧ (o !! "status" ≠ Some (VString "failed") →
     o !! "error"
     = read_record sample_store (prop (event_for (VString "UC123")) "jobID")
         !! "error").
Proof.
  apply (error_field_iff_failed sample_env (event_for (VString "UC123"))
           sample_store "job: j1").
  left. apply list_elem_of_further, list_elem_of_here.
Defined.

Lemma in_progress_write_first_witness :
  read_record failed_store (VString "j1") !! "status" = Some (VString "failed")
  ∧ ∃ rest,
      writes (ops (ResolveChannel.handler sample_env
                     (Some (event_for (VString "@acme"))) failed_store))
      = ("job: j1",
         <["status" := VString "resolving channel"]>
           (read_record failed_store (VString "j1")))
        :: rest.
Proof.
  split; [reflexivity|].
  apply (in_progress_write_first sample_env (event_for (VString "@acme"))
           failed_store eq_refl).
Defined.

Lemma failure_with_identity_witness :
  let r := ResolveChannel.handler sample_env
             (Some (event_for (VString "@lost"))) sample_store in
  final r
  = <["job: j1" := failed_record "fetch failed" sample_job]> sample_store
  ∧ emitted (ops r)
    = [mkEvent "yt.channel.error"
         {[ "jobID" := VString "j1"; "email" := VString "ana@example.org";
            "error" := VString "Failed to resolve channel: fetch failed" ]}].
Proof.
  apply (proj1 (failure_with_identity sample_env (event_for (VString "@lost"))
                  sample_store "fetch failed" eq_refl eq_refl)).
  reflexivity.
Defined.

Lemma missing_credential_fails_witness :
  let r := ResolveChannel.handler keyless_env
             (Some (event_for (VString "@acme"))) sample_store in
  fetched (ops r) = []
  ∧ final r
    = <["job: j1" :=
          failed_record "YOUTUBE_API_KEY is not set in environment variables"
            sample_job]> sample_store.
Proof.
  destruct (missing_credential_fails keyless_env (event_for (VString "@acme"))
              sample_store eq_refl eq_refl eq_refl)
    as [(Hfetch & _ & Hfinal & _) _].
  split; [exact Hfetch|exact Hfinal].
Defined.

Lemma non_handle_not_found_witness :
  let r := ResolveChannel.handler sample_env
             (Some (event_for (VString "UC123"))) sample_store in
  fetched (ops r) = []
  ∧ final r
    = <["job: j1" := failed_record "Channel not found" sample_job]> sample_store
  ∧ emitted (ops r)
    = [mkEvent "yt.channel.error"
         {[ "jobID" := VString "j1"; "email" := VString "ana@example.org" ]}].
Proof.
  apply (non_handle_not_found sample_env (event_for (VString "UC123"))
           sample_store "UC123"); reflexivity.
Defined.

Lemma first_hit_without_channel_id_witness :
  let r := ResolveChannel.handler lax_env
             (Some (event_for (VString "@mixed"))) sample_store in
  let r' := ResolveChannel.handler lax_env
              (Some (event_for (VString "@broken"))) sample_store in
  (fetched (ops r) = [ResolveChannel.searchURL (VString "mixed") sample_key]
   ∧ final r
     = <["job: j1" := failed_record "Channel not found" sample_job]> sample_store
   ∧ emitted (ops r)
     = [mkEvent "yt.channel.error"
          {[ "jobID" := VString "j1"; "email" := VString "ana@example.org" ]}])
  ∧ fetched (ops r') = [ResolveChannel.searchURL (VString "broken") sample_key]
  ∧ ∃ msg,
      ResolveChannel.first_hit hit_without_id_object = Throws msg
      ∧ final r' = <["job: j1" := failed_record msg sample_job]> sample_store
      ∧ emitted (ops r')
        = [mkEvent "yt.channel.error"
             {[ "jobID" := VString "j1"; "email" := VString "ana@example.org";
                "error" := VString ("Failed to resolve channel: " +:+ msg) ]}].
Proof.
  cbv zeta. split.
  - destruct (first_hit_without_channel_id lax_env
                (event_for (VString "@mixed")) sample_store "mixed"
                hit_without_id [acme_hit] eq_refl eq_refl eq_refl)
      as (Hfetched & Hfound & _).
    + intros id snippet [= <- _]. reflexivity.
    + split; [exact Hfetched|]. apply Hfound.
      eexists _, _. reflexivity.
  - destruct (first_hit_without_channel_id lax_env
                (event_for (VString "@broken")) sample_store "broken"
                hit_without_id_object [acme_hit] eq_refl eq_refl eq_refl)
      as (Hfetched & _ & Hbroken).
    + intros id snippet Heq. discriminate Heq.
    + split; [exact Hfetched|]. apply Hbroken; [|reflexivity..].
      intros (id & snippet & Heq). discriminate Heq.
Defined.

Lemma channel_not_a_string_fails_witness :
  let r := ResolveChannel.handler sample_env (Some event_without_channel)
             sample_store in
  ∃ msg,
    fetched (ops r) = []
    ∧ final r = <["job: j1" := failed_record msg sample_job]> sample_store
    ∧ emitted (ops r)
      = [mkEvent "yt.channel.error"
           {[ "jobID" := VString "j1"; "email" := VString "ana@example.org";
              "error" := VString ("Failed to resolve channel: " +:+ msg) ]}].
Proof.
  apply (channel_not_a_string_fails sample_env event_without_channel
           sample_store eq_refl eq_refl eq_refl).
  intros s H. change (VUndefined = VString s) in H. discriminate H.
Defined.

Lemma listing_stores_all_returned_witness :
  let r := FetchVideos.handler lax_env (Some sample_resolved_event)
             sample_store in
  let r' := FetchVideos.handler lax_env (Some (resolved_event_for "UC404"))
              sample_store in
  final r
  = <["job: j1" :=
        <["videos" := VVideos (map video_of seven_available)]>
          (<["status" := VString "videos fetched"]> sample_job)]> sample_store
  ∧ length (map video_of seven_available) = 7
  ∧ ∃ msg,
      map_items FetchVideos.to_video
        [entry_of (sample_video "7" "17"); entry_without_thumbnails] = Throws msg
      ∧ final r'
        = <["job: j1" := failed_record msg sample_job]> sample_store
      ∧ emitted (ops r')
        = [mkEvent "yt.videos.error"
             {[ "jobID" := VString "j1"; "email" := VString "ana@example.org";
                "error" := VString ("Failed to fetch videos: " +:+ msg) ]}].
Proof.
  cbv zeta.
  destruct (listing_stores_all_returned lax_env sample_resolved_event
              sample_store (entry_of (sample_video "3" "13"))
              (map entry_of
                 [sample_video "7" "17"; sample_video "1" "11";
                  sample_video "5" "15"; sample_video "2" "12";
                  sample_video "6" "16"; sample_video "4" "14"])
              eq_refl eq_refl)
    as (Hstored & _ & _).
  destruct (Hstored seven_available eq_refl) as (Hfinal & _ & Hlen).
  split; [exact Hfinal|]. split; [exact Hlen|].
  destruct (listing_stores_all_returned lax_env (resolved_event_for "UC404")
              sample_store (entry_of (sample_video "7" "17"))
              [entry_without_thumbnails] eq_refl eq_refl)
    as (_ & _ & Hfails).
  exact (Hfails eq_refl eq_refl eq_refl).
Defined.

Lemma pipeline_end_to_end_witness :
  let r := pipeline SubmitAlt.handler sample_env (mkRequest (Some sample_body)) ∅ in
  response_status r = Some 201%Z
  ∧ final r !! "job: job_1700000000000_4fzyo82"
    = Some (<["videos" := VVideos (map video_of newest_five)]>
              (<["status" := VString "videos fetched"]>
                 (new_job sample_env sample_body))).
Proof.
  destruct (pipeline_end_to_end sample_env sample_body ∅ "acme"
              acme_id acme_snippet [] (sample_video "7" "17")
              [sample_video "6" "16"; sample_video "5" "15";
               sample_video "4" "14"; sample_video "3" "13"])
    as (Hstatus & Hfinal & _).
  - exact sample_body_valid.
  - reflexivity.
  - reflexivity.
  - reflexivity.
  - reflexivity.
  - reflexivity.
  - split; [exact Hstatus|exact Hfinal].
Defined.

Lemma first_submit_stays_queued_witness :
  let r := pipeline Submit.handler sample_env (mkRequest (Some sample_body)) ∅ in
  final r !! "job:job_1700000000000_4fzyo82"
  = Some (new_job sample_env sample_body)
  ∧ new_job sample_env sample_body !! "status" = Some (VString "queued").
Proof.
  apply (first_submit_stays_queued sample_env sample_body ∅ sample_body_valid).
Defined.

Lemma no_deduplication_witness :
  let s1 := final (SubmitAlt.handler sample_env (mkRequest (Some sample_body)) ∅) in
  let s2 := final (SubmitAlt.handler later_env (mkRequest (Some sample_body)) s1) in
  s2 !! "job: job_1700000000000_4fzyo82" = Some (new_job sample_env sample_body)
  ∧ s2 !! "job: job_1700000000001_4fzyo82" = Some (new_job later_env sample_body).
Proof.
  refine (proj2 (no_deduplication sample_env later_env sample_body sample_body
                   ∅ sample_body_valid sample_body_valid _)).
  intros H. vm_compute in H. discriminate H.
Defined.

Lemma jobID_injective_witness :
  new_jobID sample_env = new_jobID keyless_env
  ∧ env_Date_now sample_env = env_Date_now keyless_env.
Proof.
  split; [reflexivity|].
  apply (jobID_injective sample_env keyless_env).
  - vm_compute. discriminate.
  - vm_compute. discriminate.
  - reflexivity.
Defined.

Lemma request_urls_injective_witness :
  ResolveChannel.searchURL VUndefined sample_key
  = ResolveChannel.searchURL (VString "undefined") sample_key
  ∧ to_string VUndefined = to_string (VString "undefined").
Proof.
  split; [reflexivity|].
  apply (request_urls_injective VUndefined (VString "undefined") sample_key).
  left. reflexivity.
Defined.

(** ** Where an accepted job ends *)

Section Outcomes.

Variables (env : Env) (d : Obj) (st : gmap string Obj).
Let jobID : Val := prop d "jobID".
Let email : Val := prop d "email".

Lemma resolve_identified_outcome :
  truthy jobID = true → truthy email = true →
  let r := ResolveChannel.handler env (Some d) st in
  ∃ e o,
    emitted (ops r) = [e] ∧ final r !! job_key jobID = Some o
    ∧ keeps_fields o (read_record st jobID)
    ∧ (topic e = "yt.channel.resolved"
       ∨ topic e = "yt.channel.error"
         ∧ o !! "status" = Some (VString "failed")).
Proof.
  intros Hj He. cbv zeta.
  remember (ResolveChannel.handler env (Some d) st) as r eqn:E. revert E.
  js_run. fold jobID email. rewrite ?Hj, ?He. js_walk; intros ->;
    cbn [ops final emitted omap list_omap]; eexists _, _;
    (split; [reflexivity|]); (split; [apply lookup_insert_eq|]);
    (split; [keeps_leaf|]); cbn [topic];
    first [ left; reflexivity
          | right; split; [reflexivity|]; norm_lookups; reflexivity ].
Qed.

Lemma listing_identified_outcome :
  truthy jobID = true → truthy email = true →
  let r := FetchVideos.handler env (Some d) st in
  ∃ e o,
    emitted (ops r) = [e] ∧ final r !! job_key jobID = Some o
    ∧ keeps_fields o (read_record st jobID)
    ∧ (topic e = "yt.videos.fetched"
       ∧ o !! "status" = Some (VString "videos fetched")
       ∨ topic e = "yt.videos.error"
         ∧ o !! "status" = Some (VString "failed")).
Proof.
  intros Hj He. cbv zeta.
  remember (FetchVideos.handler env (Some d) st) as r eqn:E. revert E.
  js_run. fold jobID email. rewrite ?Hj, ?He. js_walk; intros ->;
    cbn [ops final emitted omap list_omap]; eexists _, _;
    (split; [reflexivity|]); (split; [apply lookup_insert_eq|]);
    (split; [keeps_leaf|]); cbn [topic];
    first [ left; split; [reflexivity|]; norm_lookups; reflexivity
          | right; split; [reflexivity|]; norm_lookups; reflexivity ].
Qed.

End Outcomes.

Section Termination.

Variables (env : Env) (b : Obj) (st : gmap string Obj).

(** X23. With the second document of the submit step, every accepted
    submission ends in a terminal state, whatever the credential and the
    remote service do: at the end of the pipeline the job's record has
    [status = "videos fetched"] and the last event is [yt.videos.fetched],
    or it has [status = "failed"] and the last event is [yt.channel.error] or
    [yt.videos.error]; in both cases the record still agrees with the record
    created by the submission on every field other than [status], [error]
    and [videos]. *)
Theorem accepted_job_reaches_terminal_status :
  valid_submission b →
  let r := pipeline SubmitAlt.handler env (mkRequest (Some b)) st in
  ∃ o e,
    final r !! ("job: " +:+ new_jobID env) = Some o
    ∧ terminal o
    ∧ keeps_fields o (new_job env b)
    ∧ last (emitted (ops r)) = Some e
    ∧ (topic e = "yt.videos.fetched"
         ∧ o !! "status" = Some (VString "videos fetched")
       ∨ (topic e = "yt.channel.error" ∨ topic e = "yt.videos.error")
         ∧ o !! "status" = Some (VString "failed")).
Proof.
  intros Hvalid. cbv zeta. unfold pipeline.
  rewrite (submit_alt_valid_run env b st Hvalid).
  cbn [ops final emitted omap list_omap outcome].
  rewrite deliver_all_single, deliver_submit by reflexivity.
  cbn [data ops final].
  set (e1 := {[ "jobID" := VString (new_jobID env);
                "channel" := prop b "channel";
                "email" := prop b "email" ]} : Obj).
  set (s1 := <["job: " +:+ new_jobID env := new_job env b]> st).
  assert (Hj1 : prop e1 "jobID" = VString (new_jobID env))
    by (subst e1; prop_lookup; reflexivity).
  assert (He1 : prop e1 "email" = prop b "email")
    by (subst e1; prop_lookup; reflexivity).
  assert (Htj : truthy (prop e1 "jobID") = true) by (rewrite Hj1; reflexivity).
  assert (Hte : truthy (prop e1 "email") = true)
    by (rewrite He1; apply Hvalid).
  destruct (resolve_identified_outcome env e1 s1 Htj Hte)
    as (e2 & o2 & Hemit2 & Hfinal2 & Hkeep2 & Hcase).
  assert (Hread1 : read_record s1 (prop e1 "jobID") = new_job env b).
  { rewrite Hj1. unfold read_record, s1.
    change (job_key (VString (new_jobID env))) with ("job: " +:+ new_jobID env).
    by rewrite lookup_insert_eq. }
  rewrite Hread1 in Hkeep2.
  rewrite Hj1 in Hfinal2. change (job_key (VString (new_jobID env)))
    with ("job: " +:+ new_jobID env) in Hfinal2.
  assert (Hid2 : prop (data e2) "jobID" = VString (new_jobID env)
                 ∧ prop (data e2) "email" = prop b "email").
  { rewrite <- Hj1, <- He1. apply (resolve_events_identity env e1 s1).
    rewrite Hemit2. apply list_elem_of_here. }
  rewrite Hemit2. rewrite deliver_all_single.
  destruct Hcase as [Ht2|[Ht2 Hst2]].
  - rewrite deliver_resolved by exact Ht2.
    destruct Hid2 as [Hj2 He2].
    assert (Htj2 : truthy (prop (data e2) "jobID") = true)
      by (rewrite Hj2; reflexivity).
    assert (Hte2 : truthy (prop (data e2) "email") = true)
      by (rewrite He2; apply Hvalid).
    destruct (listing_identified_outcome env (data e2)
                (final (ResolveChannel.handler env (Some e1) s1)) Htj2 Hte2)
      as (e3 & o3 & Hemit3 & Hfinal3 & Hkeep3 & Hcase3).
    rewrite Hj2 in Hfinal3, Hkeep3. cbn [ops final].
    assert (Hkeep : keeps_fields o3 (new_job env b)).
    { intros f Hs He Hv. rewrite (Hkeep3 f Hs He Hv). unfold read_record.
      change (job_key (VString (new_jobID env)))
        with ("job: " +:+ new_jobID env).
      rewrite Hfinal2. cbn [spread from_option id]. by apply Hkeep2. }
    exists o3, e3. split; [exact Hfinal3|].
    unfold emitted in *. rewrite !omap_app, Hemit2, Hemit3.
    cbn [omap list_omap app last].
    destruct Hcase3 as [[Ht3 Hs3]|[Ht3 Hs3]].
    + split; [by right|]. split; [exact Hkeep|]. split; [reflexivity|].
      left. done.
    + split; [by left|]. split; [exact Hkeep|]. split; [reflexivity|].
      right. split; [by right|done].
  - unfold deliver. rewrite Ht2. cbn [String.eqb Ascii.eqb Bool.eqb].
    cbn [ret ops final].
    exists o2, e2. split; [exact Hfinal2|].
    unfold emitted in *. rewrite !omap_app, Hemit2.
    cbn [omap list_omap app last].
    split; [by left|]. split; [exact Hkeep2|]. split; [reflexivity|].
    right. split; [by left|done].
Qed.

End Termination.

Lemma accepted_job_reaches_terminal_status_witness :
  let r := pipeline SubmitAlt.handler sample_env (mkRequest (Some sample_body)) ∅ in
  ∃ o e,
    final r !! ("job: " +:+ new_jobID sample_env) = Some o
    ∧ terminal o
    ∧ keeps_fields o (new_job sample_env sample_body)
    ∧ last (emitted (ops r)) = Some e
    ∧ (topic e = "yt.videos.fetched"
         ∧ o !! "status" = Some (VString "videos fetched")
       ∨ (topic e = "yt.channel.error" ∨ topic e = "yt.videos.error")
         ∧ o !! "status" = Some (VString "failed")).
Proof.
  apply (accepted_job_reaches_terminal_status sample_env sample_body ∅
           sample_body_valid).
Defined.
